(** * The Spire: a shallow embedding of the simulation engine (src/main.py)

    The engine is the class [Simulation] of main.py together with the
    dataclasses it mutates.  Conventions of the embedding:

    - Python [int] is [Z]; Python [float] is an exact rational [Q] (no
      rounding is modelled; every constant of the source is a decimal
      fraction);
    - [Sector] objects live in a store indexed by references, and
      [GameState.sectors] is the Python list of those references, so a
      sector reached through [get_sector], through [random.choice] or through
      the closure of a dilemma is the same mutable object;
    - the [random] module is a tape of integers read left to right, each call
      of the module taking its result from the next cell;
    - a computation is a function from the simulation to an outcome and the
      simulation it leaves behind; an exception keeps the mutations done
      before it was raised, as in Python. *)

From Stdlib Require Import ZArith QArith Qround Qminmax List String Bool Lia Lqa.
From stdpp Require Import base tactics option list functions.

Local Open Scope Z_scope.

(** ** Data model *)

Inductive SectorType := RESIDENTIAL | FARMS | POWER | INDUSTRIAL | EMPTY.

Inductive DisasterType := FIRE | COLLAPSE | DISEASE | RIOTS.

Record Sector := mkSector {
  level : Z;
  sector_type : SectorType;
  health : Q;
  workers : Z;
  disaster : option DisasterType;
  disaster_intensity : Z;
  on_fire : bool;
  fire_turns : Z;
  unstable : bool;
  quarantined : bool
}.

(** [Sector(level=l, sector_type=t, workers=n)] with the dataclass defaults. *)
Definition new_Sector (l : Z) (t : SectorType) (n : Z) : Sector :=
  mkSector l t 100%Q n None 0 false 0 false false.

Definition set_health (f : Q -> Q) (x : Sector) : Sector :=
  mkSector (level x) (sector_type x) (f (health x)) (workers x) (disaster x)
    (disaster_intensity x) (on_fire x) (fire_turns x) (unstable x) (quarantined x).

Definition set_workers (f : Z -> Z) (x : Sector) : Sector :=
  mkSector (level x) (sector_type x) (health x) (f (workers x)) (disaster x)
    (disaster_intensity x) (on_fire x) (fire_turns x) (unstable x) (quarantined x).

Definition set_on_fire (f : bool -> bool) (x : Sector) : Sector :=
  mkSector (level x) (sector_type x) (health x) (workers x) (disaster x)
    (disaster_intensity x) (f (on_fire x)) (fire_turns x) (unstable x) (quarantined x).

Definition set_fire_turns (f : Z -> Z) (x : Sector) : Sector :=
  mkSector (level x) (sector_type x) (health x) (workers x) (disaster x)
    (disaster_intensity x) (on_fire x) (f (fire_turns x)) (unstable x) (quarantined x).

Definition Qltb (x y : Q) : bool := negb (Qle_bool y x).

(** [Sector.is_functional]: [health > 20 and not on_fire]. *)
Definition is_functional (x : Sector) : bool :=
  Qltb 20 (health x) && negb (on_fire x).

Record Citizen := mkCitizen {
  cit_name : string;
  cit_role : string;
  cit_location : Z;
  cit_alive : bool
}.

(** A reference to a [Sector] object. *)
Definition ref := nat.

(** The two closures of [_create_dilemma], each with the object it captured. *)
Inductive Consequence :=
  | save_sector (target : ref)
  | abandon_sector (target : ref).

(** The formatted texts of a dilemma are kept as the values they print. *)
Record Dilemma := mkDilemma {
  title_level : Z;
  description_type : SectorType;
  description_workers : Z;
  consequence_a : Consequence;
  consequence_b : Consequence
}.

Inductive Color := white | red | green | yellow | cyan.

(** One constructor per f-string handed to [_add_event], with the integers it
    prints. *)
Inductive Message :=
  | MsgAwakens | MsgUnstable
  | MsgStarvation (deaths : Z)
  | MsgBlackout (lvl : Z)
  | MsgFireSpreads (lvl : Z)
  | MsgFireBurnsOut (lvl : Z)
  | MsgCollapses (lvl casualties : Z)
  | MsgCollapseDamages (lvl : Z)
  | MsgFlee (fled : Z)
  | MsgEarthquake (affected casualties : Z)
  | MsgMajorFire (lvl : Z)
  | MsgPlague (deaths : Z)
  | MsgStructuralFailure (levels_lost casualties : Z)
  | MsgRiots (lvl deaths : Z)
  | MsgSupplyCache | MsgRefugees | MsgPowerSurge | MsgHarvest
  | MsgReinforced (lvl : Z)
  | MsgEvacuated (lvl : Z)
  | MsgRepaired (lvl : Z)
  | MsgNeed40Materials
  | MsgExtinguished (lvl : Z)
  | MsgNeed30PowerOrNoFire
  | MsgAtMaximumHeight
  | MsgNeed80Materials
  | MsgBuilt (type_name : string) (lvl : Z)
  | MsgFestival
  | MsgNeedFoodPower
  | MsgCulled.

(** The tuple [(f"Y{year}M{month}: {message}", color)]. *)
Record Event := mkEvent {
  ev_year : Z;
  ev_month : Z;
  ev_message : Message;
  ev_color : Color
}.

(** The values [victory_message] takes: the empty string and the three
    formatted end-of-game texts. *)
Inductive VictoryMessage :=
  | NoMessage
  | Extinction (yr : Z)
  | TotalCollapse (yr : Z)
  | Legendary (yr survivors : Z).

Record GameState := mkGameState {
  year : Z;
  month : Z;
  food : Q;
  power : Q;
  materials : Q;
  population : Z;
  morale : Q;
  sectors : list ref;
  max_height : Z;
  citizens : list Citizen;
  events : list Event;
  current_dilemma : option Dilemma;
  tension : Q;
  turns_since_crisis : Z;
  alive : bool;
  victory_message : VictoryMessage;
  cursor : Z;
  building_mode : bool
}.

Definition set_year (f : Z -> Z) (s : GameState) : GameState :=
  mkGameState (f (year s)) (month s) (food s) (power s) (materials s) (population s)
    (morale s) (sectors s) (max_height s) (citizens s) (events s) (current_dilemma s)
    (tension s) (turns_since_crisis s) (alive s) (victory_message s) (cursor s)
    (building_mode s).

Definition set_month (f : Z -> Z) (s : GameState) : GameState :=
  mkGameState (year s) (f (month s)) (food s) (power s) (materials s) (population s)
    (morale s) (sectors s) (max_height s) (citizens s) (events s) (current_dilemma s)
    (tension s) (turns_since_crisis s) (alive s) (victory_message s) (cursor s)
    (building_mode s).

Definition set_food (f : Q -> Q) (s : GameState) : GameState :=
  mkGameState (year s) (month s) (f (food s)) (power s) (materials s) (population s)
    (morale s) (sectors s) (max_height s) (citizens s) (events s) (current_dilemma s)
    (tension s) (turns_since_crisis s) (alive s) (victory_message s) (cursor s)
    (building_mode s).

Definition set_power (f : Q -> Q) (s : GameState) : GameState :=
  mkGameState (year s) (month s) (food s) (f (power s)) (materials s) (population s)
    (morale s) (sectors s) (max_height s) (citizens s) (events s) (current_dilemma s)
    (tension s) (turns_since_crisis s) (alive s) (victory_message s) (cursor s)
    (building_mode s).

Definition set_materials (f : Q -> Q) (s : GameState) : GameState :=
  mkGameState (year s) (month s) (food s) (power s) (f (materials s)) (population s)
    (morale s) (sectors s) (max_height s) (citizens s) (events s) (current_dilemma s)
    (tension s) (turns_since_crisis s) (alive s) (victory_message s) (cursor s)
    (building_mode s).

Definition set_population (f : Z -> Z) (s : GameState) : GameState :=
  mkGameState (year s) (month s) (food s) (power s) (materials s) (f (population s))
    (morale s) (sectors s) (max_height s) (citizens s) (events s) (current_dilemma s)
    (tension s) (turns_since_crisis s) (alive s) (victory_message s) (cursor s)
    (building_mode s).

Definition set_morale (f : Q -> Q) (s : GameState) : GameState :=
  mkGameState (year s) (month s) (food s) (power s) (materials s) (population s)
    (f (morale s)) (sectors s) (max_height s) (citizens s) (events s) (current_dilemma s)
    (tension s) (turns_since_crisis s) (alive s) (victory_message s) (cursor s)
    (building_mode s).

Definition set_sectors (f : list ref -> list ref) (s : GameState) : GameState :=
  mkGameState (year s) (month s) (food s) (power s) (materials s) (population s)
    (morale s) (f (sectors s)) (max_height s) (citizens s) (events s) (current_dilemma s)
    (tension s) (turns_since_crisis s) (alive s) (victory_message s) (cursor s)
    (building_mode s).

Definition set_citizens (f : list Citizen -> list Citizen) (s : GameState) : GameState :=
  mkGameState (year s) (month s) (food s) (power s) (materials s) (population s)
    (morale s) (sectors s) (max_height s) (f (citizens s)) (events s) (current_dilemma s)
    (tension s) (turns_since_crisis s) (alive s) (victory_message s) (cursor s)
    (building_mode s).

Definition set_events (f : list Event -> list Event) (s : GameState) : GameState :=
  mkGameState (year s) (month s) (food s) (power s) (materials s) (population s)
    (morale s) (sectors s) (max_height s) (citizens s) (f (events s)) (current_dilemma s)
    (tension s) (turns_since_crisis s) (alive s) (victory_message s) (cursor s)
    (building_mode s).

Definition set_current_dilemma (f : option Dilemma -> option Dilemma) (s : GameState)
  : GameState :=
  mkGameState (year s) (month s) (food s) (power s) (materials s) (population s)
    (morale s) (sectors s) (max_height s) (citizens s) (events s) (f (current_dilemma s))
    (tension s) (turns_since_crisis s) (alive s) (victory_message s) (cursor s)
    (building_mode s).

Definition set_tension (f : Q -> Q) (s : GameState) : GameState :=
  mkGameState (year s) (month s) (food s) (power s) (materials s) (population s)
    (morale s) (sectors s) (max_height s) (citizens s) (events s) (current_dilemma s)
    (f (tension s)) (turns_since_crisis s) (alive s) (victory_message s) (cursor s)
    (building_mode s).

Definition set_turns_since_crisis (f : Z -> Z) (s : GameState) : GameState :=
  mkGameState (year s) (month s) (food s) (power s) (materials s) (population s)
    (morale s) (sectors s) (max_height s) (citizens s) (events s) (current_dilemma s)
    (tension s) (f (turns_since_crisis s)) (alive s) (victory_message s) (cursor s)
    (building_mode s).

Definition set_alive (f : bool -> bool) (s : GameState) : GameState :=
  mkGameState (year s) (month s) (food s) (power s) (materials s) (population s)
    (morale s) (sectors s) (max_height s) (citizens s) (events s) (current_dilemma s)
    (tension s) (turns_since_crisis s) (f (alive s)) (victory_message s) (cursor s)
    (building_mode s).

Definition set_victory_message (f : VictoryMessage -> VictoryMessage) (s : GameState)
  : GameState :=
  mkGameState (year s) (month s) (food s) (power s) (materials s) (population s)
    (morale s) (sectors s) (max_height s) (citizens s) (events s) (current_dilemma s)
    (tension s) (turns_since_crisis s) (alive s) (f (victory_message s)) (cursor s)
    (building_mode s).

Definition set_cursor (f : Z -> Z) (s : GameState) : GameState :=
  mkGameState (year s) (month s) (food s) (power s) (materials s) (population s)
    (morale s) (sectors s) (max_height s) (citizens s) (events s) (current_dilemma s)
    (tension s) (turns_since_crisis s) (alive s) (victory_message s) (f (cursor s))
    (building_mode s).

Definition set_building_mode (f : bool -> bool) (s : GameState) : GameState :=
  mkGameState (year s) (month s) (food s) (power s) (materials s) (population s)
    (morale s) (sectors s) (max_height s) (citizens s) (events s) (current_dilemma s)
    (tension s) (turns_since_crisis s) (alive s) (victory_message s) (cursor s)
    (f (building_mode s)).

(** The dataclass defaults of [GameState], before [__post_init__]. *)
Definition GameState_defaults : GameState :=
  mkGameState 1 1 150%Q 100%Q 80%Q 85 65%Q [] 12 [] [] None 0%Q 0 true NoMessage 5
    false.

(** ** The simulation: state, object store, random tape *)

Record Rng := mkRng {
  tape : nat -> Z;
  rpos : nat
}.

Record Simulation := mkSimulation {
  state : GameState;
  store : ref -> Sector;
  next_ref : ref;
  rng : Rng
}.

Inductive Exn := IndexError | ValueError.

Inductive Result (A : Type) :=
  | Ok (a : A)
  | Raise (e : Exn).

Arguments Ok {A} a.
Arguments Raise {A} e.

Definition M (A : Type) : Type := Simulation -> Result A * Simulation.

Definition ret {A} (a : A) : M A := fun w => (Ok a, w).

Definition bind {A B} (m : M A) (k : A -> M B) : M B :=
  fun w => match m w with
           | (Ok a, w') => k a w'
           | (Raise e, w') => (Raise e, w')
           end.

Definition raise {A} (e : Exn) : M A := fun w => (Raise e, w).

Notation "x <- m ;; k" := (bind m (fun x => k))
  (at level 100, m at next level, right associativity).
Notation "m ;; k" := (bind m (fun _ => k))
  (at level 100, right associativity).

(** Reading a value off the simulation. *)
Definition gets {A} (f : Simulation -> A) : M A := fun w => (Ok (f w), w).

(** Reading [self.state]. *)
Definition get : M GameState := gets state.

(** An assignment to attributes of [self.state]. *)
Definition with_state (f : GameState -> GameState) (w : Simulation) : Simulation :=
  mkSimulation (f (state w)) (store w) (next_ref w) (rng w).

Definition modify (f : GameState -> GameState) : M unit :=
  fun w => (Ok tt, with_state f w).

(** Reading the object behind a reference. *)
Definition sector (r : ref) : M Sector := gets (fun w => store w r).

(** An assignment to attributes of the object behind a reference. *)
Definition with_sector (r : ref) (f : Sector -> Sector) (w : Simulation) : Simulation :=
  mkSimulation (state w) (alter f r (store w)) (next_ref w) (rng w).

Definition update (r : ref) (f : Sector -> Sector) : M unit :=
  fun w => (Ok tt, with_sector r f w).

(** Creating a [Sector] object. *)
Definition with_new (x : Sector) (w : Simulation) : Simulation :=
  mkSimulation (state w) (<[next_ref w := x]> (store w)) (S (next_ref w)) (rng w).

Definition alloc (x : Sector) : M ref :=
  fun w => (Ok (next_ref w), with_new x w).

(** The next cell of the random tape. *)
Definition with_rng (g : Rng) (w : Simulation) : Simulation :=
  mkSimulation (state w) (store w) (next_ref w) g.

Definition draw : M Z :=
  fun w => (Ok (tape (rng w) (rpos (rng w))),
            with_rng (mkRng (tape (rng w)) (S (rpos (rng w)))) w).

Fixpoint for_each {A} (l : list A) (body : A -> M unit) : M unit :=
  match l with
  | [] => ret tt
  | x :: l' => body x ;; for_each l' body
  end.

Definition when (b : bool) (m : M unit) : M unit := if b then m else ret tt.

Fixpoint fold_each {A B} (l : list A) (acc : B) (body : B -> A -> M B) : M B :=
  match l with
  | [] => ret acc
  | x :: l' => acc' <- body acc x ;; fold_each l' acc' body
  end.

(** [b and m], where [m] is only evaluated when [b] holds. *)
Definition and_then (b : bool) (m : M bool) : M bool := if b then m else ret false.

(** ** The [random] module *)

(** [random.randint(a, b)]: an integer of [a..b]. *)
Definition randint (a b : Z) : M Z :=
  d <- draw ;; ret (a + d mod (b - a + 1)).

(** [random.random()]: a multiple of 2^-53 in [0, 1). *)
Definition random : M Q :=
  d <- draw ;; ret (Qmake (d mod 9007199254740992) 9007199254740992).

(** [random.uniform(a, b)] is [a + (b - a) * random()]. *)
Definition uniform (a b : Q) : M Q :=
  r <- random ;; ret (a + (b - a) * r)%Q.

(** [random.choice(seq)]; an empty sequence raises [IndexError]. *)
Definition choice {A} (l : list A) : M A :=
  match l with
  | [] => raise IndexError
  | x :: _ => d <- draw ;; ret (nth (Z.to_nat (d mod Z.of_nat (length l))) l x)
  end.

Fixpoint remove_nth {A} (i : nat) (l : list A) : list A :=
  match l, i with
  | [], _ => []
  | _ :: l', O => l'
  | x :: l', S i' => x :: remove_nth i' l'
  end.

(** [random.sample(population, k)]: [k] positions of the list, all different,
    in the order they are chosen; callers pass [k <= len(population)]. *)
Fixpoint sample {A} (l : list A) (k : nat) : M (list A) :=
  match k with
  | O => ret []
  | S k' =>
      match l with
      | [] => raise ValueError
      | x :: _ =>
          d <- draw ;;
          let i := Z.to_nat (d mod Z.of_nat (length l)) in
          rest <- sample (remove_nth i l) k' ;;
          ret (nth i l x :: rest)
      end
  end.

Definition random_lt (p : Q) : M bool := r <- random ;; ret (Qltb r p).

(** [int(x)] of a float: truncation toward zero. *)
Definition py_int (q : Q) : Z := Z.quot (Qnum q) (Zpos (Qden q)).

Definition len {A} (l : list A) : Z := Z.of_nat (length l).

(** ** GameState *)

(** [GameState.get_sector]: the first sector of the list at that level. *)
Definition get_sector (lv : Z) : M (option ref) :=
  gets (fun w => List.find (fun r => level (store w r) =? lv) (sectors (state w))).

Definition tower_configs : list (Z * SectorType) :=
  [(1, POWER); (2, INDUSTRIAL); (3, RESIDENTIAL); (4, FARMS);
   (5, RESIDENTIAL); (6, FARMS); (7, POWER); (8, RESIDENTIAL)].

Definition _initialize_tower : M unit :=
  for_each tower_configs (fun c =>
    n <- randint 8 15 ;;
    r <- alloc (new_Sector (fst c) (snd c) n) ;;
    modify (set_sectors (fun l => l ++ [r]))).

Definition citizen_names : list string :=
  ["Chen"; "Maria"; "Akeno"; "Viktor"; "Zara"; "Kim"; "Raj"]%string.

Definition citizen_roles : list string :=
  ["Engineer"; "Farmer"; "Doctor"; "Builder"; "Guard"; "Scientist"]%string.

Definition _initialize_citizens : M unit :=
  for_each (firstn 5 citizen_names) (fun name =>
    role <- choice citizen_roles ;;
    levels <- gets (fun w => List.map (fun r => level (store w r)) (sectors (state w))) ;;
    location <- choice levels ;;
    modify (set_citizens (fun l => l ++ [mkCitizen name role location true]))).

(** [GameState.__post_init__]. *)
Definition GameState_post_init : M unit :=
  s <- get ;;
  when (match sectors s with [] => true | _ => false end) _initialize_tower ;;
  s <- get ;;
  when (match citizens s with [] => true | _ => false end) _initialize_citizens.

(** ** Simulation *)

(** [events.append(e)] followed by [if len(events) > 50: events.pop(0)]. *)
Definition append_event (e : Event) (l : list Event) : list Event :=
  let l' := l ++ [e] in
  if 50 <? len l' then tail l' else l'.

Definition _add_event (message : Message) (color : Color) : M unit :=
  s <- get ;;
  modify (set_events (append_event (mkEvent (year s) (month s) message color))).

Definition blank_Sector : Sector := new_Sector 0 EMPTY 0.

(** Before [Simulation.__init__] has run: the dataclass defaults, no object
    allocated yet, and the random source the process starts with. *)
Definition unborn (g : Rng) : Simulation :=
  mkSimulation GameState_defaults (fun _ => blank_Sector) 0%nat g.

(** The body of [Simulation.__init__]. *)
Definition Simulation__init__ : M unit :=
  GameState_post_init ;;
  _add_event MsgAwakens cyan ;;
  _add_event MsgUnstable yellow.

(** [Simulation()], on a given random source. *)
Definition Simulation_init (g : Rng) : Result unit * Simulation :=
  Simulation__init__ (unborn g).

Fixpoint insert_by_level (st : ref -> Sector) (r : ref) (l : list ref) : list ref :=
  match l with
  | [] => [r]
  | r' :: l' =>
      if level (st r) <=? level (st r') then r :: r' :: l'
      else r' :: insert_by_level st r l'
  end.

(** [sectors.sort(key=lambda x: x.level)]: a stable sort. *)
Definition sort_by_level (st : ref -> Sector) (l : list ref) : list ref :=
  List.fold_right (insert_by_level st) [] l.

Definition build_choice (action : string) : SectorType * string :=
  if String.eqb action "build_farm" then (FARMS, "Farm"%string)
  else if String.eqb action "build_power" then (POWER, "Power"%string)
  else if String.eqb action "build_industry" then (INDUSTRIAL, "Industry"%string)
  else if String.eqb action "build_housing" then (RESIDENTIAL, "Housing"%string)
  else (RESIDENTIAL, "Housing"%string).

Definition _process_action (action : string) : M unit :=
  if String.eqb action "repair" then
    s <- get ;;
    found <- get_sector (cursor s) ;;
    match found with
    | Some r =>
        if Qle_bool 40 (materials s) then
          modify (set_materials (fun m => m - 40)%Q) ;;
          update r (set_health (fun h => h + 50)%Q) ;;
          update r (set_health (fun h => Qmin 100 h)) ;;
          _add_event (MsgRepaired (cursor s)) green
        else _add_event MsgNeed40Materials red
    | None => _add_event MsgNeed40Materials red
    end
  else if String.eqb action "extinguish" then
    s <- get ;;
    found <- get_sector (cursor s) ;;
    match found with
    | Some r =>
        x <- sector r ;;
        if on_fire x && Qle_bool 30 (power s) then
          modify (set_power (fun p => p - 30)%Q) ;;
          update r (set_on_fire (fun _ => false)) ;;
          _add_event (MsgExtinguished (cursor s)) green
        else _add_event MsgNeed30PowerOrNoFire red
    | None => _add_event MsgNeed30PowerOrNoFire red
    end
  else if String.prefix "build" action then
    s <- get ;;
    let next_level := len (sectors s) + 1 in
    if max_height s <? next_level then _add_event MsgAtMaximumHeight red
    else if Qltb (materials s) 80 then _add_event MsgNeed80Materials red
    else
      let '(stype, type_name) := build_choice action in
      modify (set_materials (fun m => m - 80)%Q) ;;
      n <- randint 5 10 ;;
      r <- alloc (new_Sector next_level stype n) ;;
      modify (set_sectors (fun l => l ++ [r])) ;;
      st <- gets store ;;
      modify (set_sectors (sort_by_level st)) ;;
      _add_event (MsgBuilt type_name next_level) cyan
  else if String.eqb action "boost_morale" then
    s <- get ;;
    if Qle_bool 40 (food s) && Qle_bool 20 (power s) then
      modify (set_food (fun f => f - 40)%Q) ;;
      modify (set_power (fun p => p - 20)%Q) ;;
      modify (set_morale (fun m => m + 30)%Q) ;;
      _add_event MsgFestival green
    else _add_event MsgNeedFoodPower red
  else if String.eqb action "emergency_rations" then
    s <- get ;;
    when (30 <? population s)
      (modify (set_population (fun p => p - 10)) ;;
       modify (set_food (fun f => f + 60)%Q) ;;
       modify (set_morale (fun m => m - 20)%Q) ;;
       _add_event MsgCulled red)
  else ret tt.

(** *** Crises, minor events, dilemmas *)

Definition _crisis_earthquake : M unit :=
  affected <- randint 2 5 ;;
  s <- get ;;
  sectors_hit <- sample (sectors s) (Z.to_nat (Z.min affected (len (sectors s)))) ;;
  casualties <- fold_each sectors_hit 0 (fun casualties r =>
    damage <- randint 20 45 ;;
    update r (set_health (fun h => h - inject_Z damage)%Q) ;;
    c <- randint 2 6 ;;
    ret (casualties + c)) ;;
  modify (set_population (fun p => p - casualties)) ;;
  modify (set_morale (fun m => m - 20)%Q) ;;
  _add_event (MsgEarthquake affected casualties) red.

Definition _crisis_fire : M unit :=
  s <- get ;;
  origin <- choice (sectors s) ;;
  update origin (set_on_fire (fun _ => true)) ;;
  update origin (set_fire_turns (fun _ => 0)) ;;
  x <- sector origin ;;
  _add_event (MsgMajorFire (level x)) red.

Definition _crisis_disease : M unit :=
  s <- get ;;
  u <- uniform 0.15 0.3 ;;
  let deaths := py_int (inject_Z (population s) * u) in
  modify (set_population (fun p => p - deaths)) ;;
  modify (set_morale (fun m => m - 30)%Q) ;;
  _add_event (MsgPlague deaths) red.

Definition _crisis_structural_failure : M unit :=
  levels_lost <- randint 1 3 ;;
  s <- get ;;
  targets <- sample (sectors s) (Z.to_nat (Z.min levels_lost (len (sectors s)))) ;;
  total_casualties <- fold_each targets 0 (fun total r =>
    x <- sector r ;;
    update r (set_health (fun _ => 0%Q)) ;;
    update r (set_workers (fun _ => 0)) ;;
    ret (total + workers x)) ;;
  modify (set_population (fun p => p - total_casualties)) ;;
  _add_event (MsgStructuralFailure levels_lost total_casualties) red.

Definition _crisis_riot : M unit :=
  s <- get ;;
  target <- choice (sectors s) ;;
  update target (set_health (fun h => h - 30)%Q) ;;
  modify (set_morale (fun m => m - 25)%Q) ;;
  deaths <- randint 5 15 ;;
  modify (set_population (fun p => p - deaths)) ;;
  x <- sector target ;;
  _add_event (MsgRiots (level x) deaths) red.

Definition _trigger_crisis : M unit :=
  crisis <- choice [_crisis_earthquake; _crisis_fire; _crisis_disease;
                    _crisis_structural_failure; _crisis_riot] ;;
  crisis.

Definition minor_events : list (Message * M unit * Color) :=
  [(MsgSupplyCache,
    (n <- randint 30 60 ;; modify (set_materials (fun m => m + inject_Z n)%Q)), green);
   (MsgRefugees,
    (n <- randint 5 12 ;; modify (set_population (fun p => p + n))), cyan);
   (MsgPowerSurge,
    (n <- randint 40 80 ;; modify (set_power (fun p => p + inject_Z n)%Q)), yellow);
   (MsgHarvest,
    (n <- randint 50 100 ;; modify (set_food (fun f => f + inject_Z n)%Q)), green)].

Definition _trigger_minor_event : M unit :=
  ev <- choice minor_events ;;
  let '(event_text, effect, color) := ev in
  effect ;;
  _add_event event_text color.

Definition _create_dilemma : M unit :=
  damaged <- gets (fun w =>
    List.filter (fun r => Qltb 20 (health (store w r)) && Qltb (health (store w r)) 60)
      (sectors (state w))) ;;
  match damaged with
  | [] => ret tt
  | _ :: _ =>
      target <- choice damaged ;;
      x <- sector target ;;
      modify (set_current_dilemma (fun _ =>
        Some (mkDilemma (level x) (sector_type x) (workers x)
                (save_sector target) (abandon_sector target))))
  end.

(** Calling a stored closure: [consequence_a()] or [consequence_b()]. *)
Definition call (c : Consequence) : M unit :=
  match c with
  | save_sector target =>
      update target (set_health (fun h => h + 40)%Q) ;;
      modify (set_materials (fun m => m - 50)%Q) ;;
      x <- sector target ;;
      _add_event (MsgReinforced (level x)) green
  | abandon_sector target =>
      x <- sector target ;;
      let refugees := workers x in
      modify (set_population (fun p => p - py_int (inject_Z refugees * 0.3))) ;;
      update target (set_workers (fun _ => 0)) ;;
      update target (set_health (fun _ => 0%Q)) ;;
      modify (set_morale (fun m => m - 15)%Q) ;;
      _add_event (MsgEvacuated (level x)) yellow
  end.

(** *** The phases of [advance_turn], in the order of the source *)

Definition advance_time : M unit :=
  modify (set_month (fun m => m + 1)) ;;
  s <- get ;;
  when (12 <? month s)
    (modify (set_month (fun _ => 1)) ;;
     modify (set_year (fun y => y + 1))) ;;
  modify (set_turns_since_crisis (fun t => t + 1)).

(** One iteration of the production loop on the three accumulators
    [(power_gen, food_gen, materials_gen)]. *)
Definition produce (gen : Q * Q * Q) (x : Sector) : Q * Q * Q :=
  let '(power_gen, food_gen, materials_gen) := gen in
  if negb (is_functional x) then gen
  else
    let efficiency := (health x / 100)%Q in
    match sector_type x with
    | POWER => ((power_gen + inject_Z (workers x * 3) * efficiency)%Q, food_gen, materials_gen)
    | FARMS => (power_gen, (food_gen + inject_Z (workers x) * 2.5 * efficiency)%Q, materials_gen)
    | INDUSTRIAL =>
        (power_gen, food_gen, (materials_gen + inject_Z (workers x * 2) * efficiency)%Q)
    | _ => gen
    end.

Definition production_phase : M unit :=
  gen <- gets (fun w =>
    List.fold_left produce (List.map (store w) (sectors (state w))) (0%Q, 0%Q, 0%Q)) ;;
  let '(power_gen, food_gen, materials_gen) := gen in
  modify (set_power (fun p => p + power_gen)%Q) ;;
  modify (set_food (fun f => f + food_gen)%Q) ;;
  modify (set_materials (fun m => m + materials_gen)%Q).

Definition consumption_phase : M unit :=
  s <- get ;;
  let power_cost := (inject_Z (population s) * 0.6)%Q in
  let food_cost := (inject_Z (population s) * 1.0)%Q in
  modify (set_power (fun p => p - power_cost)%Q) ;;
  modify (set_food (fun f => f - food_cost)%Q).

Definition crisis_phase : M unit :=
  s <- get ;;
  when (Qltb (food s) 0)
    (let deaths := Z.min (py_int (inject_Z (population s) * 0.12)) 15 in
     modify (set_population (fun p => p - deaths)) ;;
     modify (set_morale (fun m => m - 25)%Q) ;;
     _add_event (MsgStarvation deaths) red ;;
     modify (set_food (fun _ => 0%Q))) ;;
  s <- get ;;
  when (Qltb (power s) 0)
    (modify (set_morale (fun m => m - 15)%Q) ;;
     functional <- gets (fun w =>
       List.filter (fun r => is_functional (store w r)) (sectors (state w))) ;;
     match functional with
     | [] => ret tt
     | _ :: _ =>
         victim <- choice functional ;;
         update victim (set_health (fun h => h - 25)%Q) ;;
         x <- sector victim ;;
         _add_event (MsgBlackout (level x)) red
     end ;;
     modify (set_power (fun _ => 0%Q))).

Definition _propagate_disasters : M unit :=
  s <- get ;;
  for_each (sectors s) (fun r =>
    x <- sector r ;;
    when (on_fire x)
      (update r (set_fire_turns (fun t => t + 1)) ;;
       update r (set_health (fun h => h - 8)%Q) ;;
       x <- sector r ;;
       spread <- and_then (2 <? fire_turns x) (random_lt 0.4) ;;
       when spread
         (for_each [level x - 1; level x + 1] (fun adj_level =>
            found <- get_sector adj_level ;;
            match found with
            | Some adj =>
                a <- sector adj ;;
                ignite <- and_then (negb (on_fire a)) (random_lt 0.5) ;;
                when ignite
                  (update adj (set_on_fire (fun _ => true)) ;;
                   update adj (set_fire_turns (fun _ => 0)) ;;
                   _add_event (MsgFireSpreads adj_level) red)
            | None => ret tt
            end)) ;;
       x <- sector r ;;
       burn_out <- and_then (5 <? fire_turns x) (random_lt 0.3) ;;
       when burn_out
         (update r (set_on_fire (fun _ => false)) ;;
          _add_event (MsgFireBurnsOut (level x)) yellow))).

Definition sector_decay : M unit :=
  s <- get ;;
  for_each (sectors s) (fun r =>
    x <- sector r ;;
    when (Qltb 0 (health x))
      (let decay := 1.5%Q in
       let decay := if 8 <? level x then (decay * 2)%Q else decay in
       update r (set_health (fun h => h - decay)%Q)) ;;
    x <- sector r ;;
    when (Qle_bool (health x) 0 && (0 <? workers x))
      (let casualties := workers x in
       modify (set_population (fun p => p - casualties)) ;;
       update r (set_workers (fun _ => 0)) ;;
       _add_event (MsgCollapses (level x) casualties) red ;;
       cascade <- random_lt 0.3 ;;
       when cascade
         (found <- get_sector (level x - 1) ;;
          match found with
          | Some below =>
              update below (set_health (fun h => h - 40)%Q) ;;
              b <- sector below ;;
              _add_event (MsgCollapseDamages (level b)) yellow
          | None => ret tt
          end))).

Definition morale_population : M unit :=
  s <- get ;;
  when (Qltb (morale s) 30)
    (fled <- randint 3 8 ;;
     modify (set_population (fun p => p - fled)) ;;
     _add_event (MsgFlee fled) yellow) ;;
  s <- get ;;
  when (Qltb (morale s) 60) (modify (set_morale (fun m => m + 1.5)%Q)) ;;
  s <- get ;;
  when (Qltb 50 (food s) && Qltb 50 (morale s) && (month s mod 3 =? 0))
    (growth <- randint 2 5 ;;
     modify (set_population (fun p => p + growth))).

Definition tension_pacing : M unit :=
  modify (set_tension (fun t => t + 2.5)%Q) ;;
  s <- get ;;
  crisis <- (if Qltb 100 (tension s) then ret true
             else and_then (8 <? turns_since_crisis s) (random_lt 0.4)) ;;
  when crisis
    (_trigger_crisis ;;
     modify (set_tension (fun _ => 0%Q)) ;;
     modify (set_turns_since_crisis (fun _ => 0))) ;;
  minor <- random_lt 0.15 ;;
  when minor _trigger_minor_event ;;
  s <- get ;;
  dilemma <- and_then (match current_dilemma s with None => true | Some _ => false end)
               (random_lt 0.12) ;;
  when dilemma _create_dilemma.

Definition functional_sectors (w : Simulation) : Z :=
  len (List.filter (fun r => is_functional (store w r)) (sectors (state w))).

Definition win_lose : M unit :=
  s <- get ;;
  when (population s <=? 0)
    (modify (set_population (fun _ => 0)) ;;
     modify (set_alive (fun _ => false)) ;;
     modify (set_victory_message (fun _ => Extinction (year s)))) ;;
  n <- gets functional_sectors ;;
  when (n =? 0)
    (s <- get ;;
     modify (set_alive (fun _ => false)) ;;
     modify (set_victory_message (fun _ => TotalCollapse (year s)))) ;;
  s <- get ;;
  when (50 <=? year s)
    (modify (set_alive (fun _ => false)) ;;
     modify (set_victory_message (fun _ => Legendary (year s) (population s)))).

(** [Simulation.advance_turn]: the main simulation tick. *)
Definition advance_turn (action : string) : M unit :=
  advance_time ;;
  when (negb (String.eqb action "wait")) (_process_action action) ;;
  production_phase ;;
  consumption_phase ;;
  crisis_phase ;;
  _propagate_disasters ;;
  sector_decay ;;
  morale_population ;;
  tension_pacing ;;
  win_lose.

(** ** SpireApp: the key handlers that drive the engine *)

Record SpireApp := mkSpireApp {
  sim : Simulation;
  game_over : bool;
  game_over_message : VictoryMessage
}.

Definition set_sim (w : Simulation) (app : SpireApp) : SpireApp :=
  mkSpireApp w (game_over app) (game_over_message app).

(** A method of the engine called from a handler: an exception leaves the
    handler at once. *)
Definition on_sim (m : M unit) (k : SpireApp -> SpireApp) (app : SpireApp)
  : Result unit * SpireApp :=
  match m (sim app) with
  | (Ok _, w) => (Ok tt, k (set_sim w app))
  | (Raise e, w) => (Raise e, set_sim w app)
  end.

Definition check_game_over (app : SpireApp) : SpireApp :=
  if negb (alive (state (sim app))) && negb (game_over app)
  then mkSpireApp (sim app) true (victory_message (state (sim app)))
  else app.

Definition has_dilemma (app : SpireApp) : bool :=
  match current_dilemma (state (sim app)) with Some _ => true | None => false end.

Definition action_move_up (app : SpireApp) : Result unit * SpireApp :=
  if game_over app then (Ok tt, app)
  else on_sim (modify (fun s => set_cursor (fun c => Z.min (c + 1) (max_height s)) s))
         id app.

Definition action_move_down (app : SpireApp) : Result unit * SpireApp :=
  if game_over app then (Ok tt, app)
  else on_sim (modify (set_cursor (fun c => Z.max (c - 1) 1))) id app.

Definition action_do_repair (app : SpireApp) : Result unit * SpireApp :=
  if game_over app || has_dilemma app then (Ok tt, app)
  else on_sim (advance_turn "repair") check_game_over app.

Definition action_do_extinguish (app : SpireApp) : Result unit * SpireApp :=
  if game_over app || has_dilemma app then (Ok tt, app)
  else on_sim (advance_turn "extinguish") check_game_over app.

Definition action_do_build (app : SpireApp) : Result unit * SpireApp :=
  if game_over app || has_dilemma app then (Ok tt, app)
  else
    let s := state (sim app) in
    if max_height s <=? len (sectors s) then on_sim (_add_event MsgAtMaximumHeight red) id app
    else if Qltb (materials s) 80 then on_sim (_add_event MsgNeed80Materials red) id app
    else on_sim (modify (set_building_mode (fun _ => true))) id app.

Definition build_handler (action : string) (app : SpireApp) : Result unit * SpireApp :=
  if negb (building_mode (state (sim app))) then (Ok tt, app)
  else on_sim (modify (set_building_mode (fun _ => false)) ;; advance_turn action)
         check_game_over app.

Definition action_build_farm : SpireApp -> Result unit * SpireApp :=
  build_handler "build_farm".

Definition action_build_power : SpireApp -> Result unit * SpireApp :=
  build_handler "build_power".

Definition action_build_industry : SpireApp -> Result unit * SpireApp :=
  build_handler "build_industry".

Definition action_build_housing : SpireApp -> Result unit * SpireApp :=
  build_handler "build_housing".

Definition action_do_morale (app : SpireApp) : Result unit * SpireApp :=
  if game_over app || has_dilemma app then (Ok tt, app)
  else on_sim (advance_turn "boost_morale") check_game_over app.

Definition action_do_rations (app : SpireApp) : Result unit * SpireApp :=
  if game_over app || has_dilemma app then (Ok tt, app)
  else on_sim (advance_turn "emergency_rations") check_game_over app.

Definition action_do_wait (app : SpireApp) : Result unit * SpireApp :=
  if game_over app || has_dilemma app then (Ok tt, app)
  else on_sim (advance_turn "wait") check_game_over app.

(** [action_choice_a] and [action_choice_b]: run the stored closure, clear the
    dilemma, then advance one "wait" turn. *)
Definition resolve (pick : Dilemma -> Consequence) : M unit :=
  s <- get ;;
  match current_dilemma s with
  | Some d =>
      call (pick d) ;;
      modify (set_current_dilemma (fun _ => None)) ;;
      advance_turn "wait"
  | None => ret tt
  end.

Definition action_choice_a (app : SpireApp) : Result unit * SpireApp :=
  if game_over app || negb (has_dilemma app) then (Ok tt, app)
  else on_sim (resolve consequence_a) check_game_over app.

Definition action_choice_b (app : SpireApp) : Result unit * SpireApp :=
  if game_over app || negb (has_dilemma app) then (Ok tt, app)
  else on_sim (resolve consequence_b) check_game_over app.

(** The six action keys.  Each tests [game_over] and [current_dilemma] before
    anything else; five of them then submit a turn, [action_do_build] opens
    building mode. *)
Definition turn_handlers : list (SpireApp -> Result unit * SpireApp) :=
  [action_do_repair; action_do_extinguish; action_do_build; action_do_morale;
   action_do_rations; action_do_wait].

(** The four type keys of building mode.  Each tests [building_mode] only, and
    then submits its build order. *)
Definition build_type_handlers : list (SpireApp -> Result unit * SpireApp) :=
  [action_build_farm; action_build_power; action_build_industry; action_build_housing].

(** ** Reasoning about computations *)

(** [wp m Q E w]: running [m] on [w] either returns a value and a simulation
    that satisfy [Q], or raises and leaves a simulation that satisfies [E]. *)
Definition wp {A} (m : M A) (Q : A -> Simulation -> Prop) (E : Simulation -> Prop)
  (w : Simulation) : Prop :=
  match m w with
  | (Ok a, w') => Q a w'
  | (Raise _, w') => E w'
  end.

(** [keeps P E m]: [m] preserves [P], and when it raises it leaves [E]. *)
Definition keeps {A} (P E : Simulation -> Prop) (m : M A) : Prop :=
  forall w, P w -> wp m (fun _ => P) E w.

(** The simulation after a computation, whatever its outcome. *)
Definition after {A} (m : M A) (w : Simulation) : Simulation := snd (m w).

(** The simulations a driver can observe: a fresh one, then turns of the
    engine, cursor moves, the resolution of the outstanding dilemma (closure
    call and clearing, as every driver does it), and draws of the driver's
    own from the shared random module. *)
Inductive reachable : Simulation -> Prop :=
  | reach_init g : reachable (snd (Simulation_init g))
  | reach_turn w action : reachable w -> reachable (after (advance_turn action) w)
  | reach_cursor w c : reachable w -> reachable (with_state (set_cursor (fun _ => c)) w)
  | reach_choice w d pick :
      reachable w -> current_dilemma (state w) = Some d ->
      (pick = consequence_a \/ pick = consequence_b) ->
      reachable (after (call (pick d) ;; modify (set_current_dilemma (fun _ => None))) w)
  | reach_draw w : reachable w -> reachable (after draw w).

(** [n] successive calls of [advance_turn] with the same action. *)
Definition advance_turns (n : nat) (action : string) (w : Simulation) : Simulation :=
  Nat.iter n (after (advance_turn action)) w.

Definition levels (w : Simulation) : list Z :=
  List.map (fun r => level (store w r)) (sectors (state w)).

(** ** Predicates on simulations *)

Definition dead (w : Simulation) : Prop := alive (state w) = false.

Definition stocked (w : Simulation) : Prop :=
  (0 <= food (state w))%Q /\ (0 <= power (state w))%Q.

Definition anything (w : Simulation) : Prop := True.

Definition nothing (w : Simulation) : Prop := False.

(** The tower as built so far: every reference of the list is allocated, the
    levels are 1, 2, ..., [len(sectors)] in list order, and the list is no
    longer than [max_height]. *)
Definition tower_ok (w : Simulation) : Prop :=
  (forall r, In r (sectors (state w)) -> (r < next_ref w)%nat) /\
  levels w = List.map Z.of_nat (seq 1 (length (sectors (state w)))) /\
  len (sectors (state w)) <= max_height (state w).

Definition inhabited (w : Simulation) : Prop := sectors (state w) <> [].

(** A sequence of turns, one action each. *)
Definition play (actions : list string) (w : Simulation) : Simulation :=
  List.fold_left (fun w action => after (advance_turn action) w) actions w.

(** ** Concrete simulations *)

(** A random source on which [random()] is always 1 - 2^-53: no chance event
    ever fires. *)
Definition steady : Rng := mkRng (fun _ => 9007199254740991) 0%nat.

Definition fresh_world : Simulation := snd (Simulation_init steady).

(** A fresh world moved to year 50 with nobody left. *)
Definition extinct_at_50 : Simulation :=
  with_state (fun s => set_population (fun _ => 0) (set_year (fun _ => 50) s)) fresh_world.

Definition level3_dilemma : Dilemma :=
  mkDilemma 3 RESIDENTIAL 15 (save_sector 2%nat) (abandon_sector 2%nat).

(** A fresh world with a dilemma outstanding. *)
Definition undecided : Simulation :=
  with_state (set_current_dilemma (fun _ => Some level3_dilemma)) fresh_world.

(** A game that ended by extinction in December of year 1. *)
Definition dead_december : Simulation :=
  with_state (fun s =>
    set_victory_message (fun _ => Extinction 1)
      (set_alive (fun _ => false)
         (set_population (fun _ => 0) (set_month (fun _ => 12) s)))) fresh_world.

(** A fresh world without materials. *)
Definition penniless : Simulation :=
  with_state (set_materials (fun _ => 0%Q)) fresh_world.

(** A fresh world with thirty people. *)
Definition thirty_left : Simulation :=
  with_state (set_population (fun _ => 30)) fresh_world.

(** The dilemma outstanding and nothing to pay for reinforcing. *)
Definition undecided_penniless : Simulation :=
  with_state (set_materials (fun _ => 0%Q)) undecided.

(** A random source that differs from [steady] in two cells: the forty-second
    draw makes a chance check succeed and the forty-third picks the third
    entry of a list of five. *)
Definition plague_tape : Rng :=
  mkRng (fun i => if (i =? 41)%nat then 0
                  else if (i =? 42)%nat then 2
                  else 9007199254740991) 0%nat.

Definition nine_months : list string :=
  ["wait"; "wait"; "wait"; "wait"; "wait"; "wait"; "wait";
   "emergency_rations"; "emergency_rations"]%string.

(** The states of the three end-of-game tests of [advance_turn]. *)
Definition extinct (w : Simulation) : bool := population (state w) <=? 0.

Definition collapsed (w : Simulation) : bool := functional_sectors w =? 0.

Definition legendary (w : Simulation) : bool := 50 <=? year (state w).

Definition recognized (action : string) : Prop :=
  action = "repair"%string \/ action = "extinguish"%string \/
  action = "boost_morale"%string \/ action = "emergency_rations"%string \/
  String.prefix "build" action = true.

(** The first nine phases of [advance_turn]: everything before the
    end-of-game tests. *)
Definition before_win_lose (action : string) : M unit :=
  advance_time ;;
  when (negb (String.eqb action "wait")) (_process_action action) ;;
  production_phase ;;
  consumption_phase ;;
  crisis_phase ;;
  _propagate_disasters ;;
  sector_decay ;;
  morale_population ;;
  tension_pacing.

Definition clock_is (y m : Z) (w : Simulation) : Prop :=
  year (state w) = y /\ month (state w) = m.

Definition log_bounded (w : Simulation) : Prop := len (events (state w)) <= 50.

Definition cursor_is (c h : Z) (w : Simulation) : Prop :=
  cursor (state w) = c /\ max_height (state w) = h.

Definition staffed (w : Simulation) : Prop := forall r, 0 <= workers (store w r).

Definition calm (w : Simulation) : Prop :=
  inhabited w /\ (tension (state w) <= 100)%Q.

(** The first eight phases of [advance_turn]: everything before the pacing. *)
Definition before_pacing (action : string) : M unit :=
  advance_time ;;
  when (negb (String.eqb action "wait")) (_process_action action) ;;
  production_phase ;;
  consumption_phase ;;
  crisis_phase ;;
  _propagate_disasters ;;
  sector_decay ;;
  morale_population.

(** The handlers that test [game_over] before anything else. *)
Definition guarded_handlers : list (SpireApp -> Result unit * SpireApp) :=
  turn_handlers ++ [action_choice_a; action_choice_b; action_move_up; action_move_down].

(** [action_cancel_build]. *)
Definition action_cancel_build (app : SpireApp) : Result unit * SpireApp :=
  if building_mode (state (sim app))
  then on_sim (modify (set_building_mode (fun _ => false))) id app
  else (Ok tt, app).

(** [action_restart]: a new [Simulation()], drawn from the random module as
    the old one left it; the application forgets the end of the game. *)
Definition action_restart (app : SpireApp) : Result unit * SpireApp :=
  match Simulation_init (rng (sim app)) with
  | (Ok _, w) => (Ok tt, mkSpireApp w false NoMessage)
  | (Raise e, w) => (Raise e, set_sim (with_rng (rng w) (sim app)) app)
  end.

(** Every key handler of [SpireApp] that acts on the simulation. *)
Definition all_handlers : list (SpireApp -> Result unit * SpireApp) :=
  guarded_handlers ++
  [action_build_farm; action_build_power; action_build_industry; action_build_housing;
   action_cancel_build; action_restart].

(** The application has noticed the end of the game. *)
Definition latched (app : SpireApp) : Prop :=
  alive (state (sim app)) = false -> game_over app = true.

(** A fresh world in which the sector under the cursor (level 5) burns. *)
Definition burning : Simulation :=
  with_sector 4%nat (set_on_fire (fun _ => true)) fresh_world.

(** The simulation with one more entry in its log, stamped with the current
    date. *)
Definition logged (message : Message) (color : Color) (w : Simulation) : Simulation :=
  with_state
    (set_events (append_event (mkEvent (year (state w)) (month (state w)) message color)))
    w.

(** A fresh world whose food has been driven to -50. *)
Definition starving : Simulation :=
  with_state (set_food (fun _ => (-50)%Q)) fresh_world.

(** The number of deaths of a famine: [min(int(population * 0.12), 15)]. *)
Definition famine_deaths (w : Simulation) : Z :=
  Z.min (py_int (inject_Z (population (state w)) * 0.12)) 15.

Definition richer_than (w0 w : Simulation) : Prop :=
  (materials (state w0) <= materials (state w))%Q /\
  population (state w0) <= population (state w) /\
  (power (state w0) <= power (state w))%Q /\
  (food (state w0) <= food (state w))%Q /\
  store w = store w0 /\ sectors (state w) = sectors (state w0) /\
  morale (state w) = morale (state w0).

(** What [Sector.get_display] shows. *)
Inductive Display :=
  | ShowDisaster (d : DisasterType)
  | ShowCritical
  | ShowDamaged
  | ShowType (t : SectorType).

(** [Sector.get_display]: the disaster if one is set, else the damage state,
    else the symbol of the type. *)
Definition get_display (x : Sector) : Display :=
  match disaster x with
  | Some d => ShowDisaster d
  | None =>
      if Qltb (health x) 30 then ShowCritical
      else if Qltb (health x) 60 then ShowDamaged
      else ShowType (sector_type x)
  end.

Definition undisturbed (w : Simulation) : Prop := forall r, disaster (store w r) = None.

(** A fresh application: [SpireApp()] on the steady random source. *)
Definition fresh_app : SpireApp := mkSpireApp fresh_world false NoMessage.

(** ** AutoPlayer: the scripted player of src/autoplay.py *)

(** The reason texts of [choose_action], with the level they print. *)
Inductive Reason :=
  | SaveSector | EvacuateLowMaterials
  | EmergencyFire (lvl : Z)
  | EmergencyRepair (lvl : Z)
  | CrisisLowFood | CrisisMorale
  | ExpansionFarm | ExpansionPower | ExpansionIndustry | ExpansionHousing
  | MaintenanceRepair (lvl : Z)
  | PreventiveMorale
  | Stockpiling.

Record AutoPlayer := mkAutoPlayer {
  ap_sim : Simulation;
  turn_count : Z;
  actions_taken : list (Z * string * Reason)
}.

(** An [if ...: return ...] that falls through to the rest of the function
    when its test fails. *)
Definition or_else {A} (rule : M (option A)) (rest : M A) : M A :=
  o <- rule ;;
  match o with
  | Some a => ret a
  | None => rest
  end.

(** The sectors of the tower that satisfy a test, in list order. *)
Definition sectors_where (test : Sector -> bool) : M (list ref) :=
  gets (fun w => List.filter (fun r => test (store w r)) (sectors (state w))).

(** [AutoPlayer.choose_action]; it aims the cursor when it picks a targeted
    action. *)
Definition choose_action : M (string * Reason) :=
  s <- get ;;
  match current_dilemma s with
  | Some _ =>
      if Qle_bool 50 (materials s) then ret ("dilemma_a"%string, SaveSector)
      else ret ("dilemma_b"%string, EvacuateLowMaterials)
  | None =>
      or_else
        (fires <- sectors_where on_fire ;;
         match fires with
         | first :: _ =>
             if Qle_bool 30 (power s) then
               x <- sector first ;;
               modify (set_cursor (fun _ => level x)) ;;
               ret (Some ("extinguish"%string, EmergencyFire (level x)))
             else ret None
         | [] => ret None
         end)
     (or_else
        (critical <- sectors_where (fun x =>
           Qltb 0 (health x) && Qltb (health x) 30 && (0 <? workers x)) ;;
         match critical with
         | first :: _ =>
             if Qle_bool 40 (materials s) then
               x <- sector first ;;
               modify (set_cursor (fun _ => level x)) ;;
               ret (Some ("repair"%string, EmergencyRepair (level x)))
             else ret None
         | [] => ret None
         end)
     (or_else
        (if Qltb (food s) 20 && (30 <? population s)
         then ret (Some ("emergency_rations"%string, CrisisLowFood)) else ret None)
     (or_else
        (if Qltb (morale s) 25 && Qle_bool 40 (food s) && Qle_bool 20 (power s)
         then ret (Some ("boost_morale"%string, CrisisMorale)) else ret None)
     (or_else
        (if Qle_bool 120 (materials s) && (len (sectors s) <? max_height s) then
           if Qltb (food s) 100 then ret (Some ("build_farm"%string, ExpansionFarm))
           else if Qltb (power s) 100 then ret (Some ("build_power"%string, ExpansionPower))
           else if Qltb (materials s) 150
                then ret (Some ("build_industry"%string, ExpansionIndustry))
           else ret (Some ("build_housing"%string, ExpansionHousing))
         else ret None)
     (or_else
        (damaged <- sectors_where (fun x =>
           Qltb 30 (health x) && Qltb (health x) 70 && (0 <? workers x)) ;;
         match damaged with
         | first :: _ =>
             if Qle_bool 60 (materials s) then
               x <- sector first ;;
               modify (set_cursor (fun _ => level x)) ;;
               ret (Some ("repair"%string, MaintenanceRepair (level x)))
             else ret None
         | [] => ret None
         end)
     (or_else
        (if Qltb (morale s) 50 && Qle_bool 60 (food s) && Qle_bool 30 (power s)
         then ret (Some ("boost_morale"%string, PreventiveMorale)) else ret None)
        (ret ("wait"%string, Stockpiling))))))))
  end.

(** What [AutoPlayer.execute_action] runs on the simulation. *)
Definition execute_on_sim (action : string) : M unit :=
  if String.eqb action "dilemma_a" then resolve consequence_a
  else if String.eqb action "dilemma_b" then resolve consequence_b
  else advance_turn action.

(** [AutoPlayer.play_turn]: choose, execute, record, count; an exception
    leaves at once. *)
Definition play_turn (p : AutoPlayer) : Result unit * AutoPlayer :=
  match choose_action (ap_sim p) with
  | (Raise e, w) => (Raise e, mkAutoPlayer w (turn_count p) (actions_taken p))
  | (Ok (action, reason), w) =>
      match execute_on_sim action w with
      | (Raise e, w') => (Raise e, mkAutoPlayer w' (turn_count p) (actions_taken p))
      | (Ok _, w') =>
          (Ok tt,
           mkAutoPlayer w' (turn_count p + 1)
             (actions_taken p ++ [(turn_count p, action, reason)]))
      end
  end.

(** The messages with which [_process_action] turns an order down. *)
Definition rejection (m : Message) : bool :=
  match m with
  | MsgNeed40Materials | MsgNeed30PowerOrNoFire | MsgAtMaximumHeight
  | MsgNeed80Materials | MsgNeedFoodPower => true
  | _ => false
  end.

(** The order is carried out: the action step ends by logging something that
    is not a rejection. *)
Definition carried_out (action : string) (w : Simulation) : Prop :=
  exists e w',
    _process_action action w = (Ok tt, w') /\
    events (state w') = append_event e (events (state w)) /\
    rejection (ev_message e) = false.

(** The two simulations differ at most in the cursor. *)
Definition same_but_cursor (w w1 : Simulation) : Prop :=
  store w1 = store w /\ next_ref w1 = next_ref w /\ rng w1 = rng w /\
  set_cursor (fun _ => 0) (state w1) = set_cursor (fun _ => 0) (state w).

(** A decision taken on [w]: the cursor may have moved, and the action is
    "wait" or an order that the engine carries out. *)
Definition well_chosen (w : Simulation) (res : Result (string * Reason) * Simulation)
  : Prop :=
  exists action reason w1,
    res = (Ok (action, reason), w1) /\
    same_but_cursor w w1 /\
    (action = "wait"%string \/ carried_out action w1).

(** The outstanding dilemma, if any, offers to reinforce or to evacuate one
    and the same sector. *)
Definition dilemma_wired (w : Simulation) : Prop :=
  forall d, current_dilemma (state w) = Some d ->
    exists target,
      consequence_a d = save_sector target /\ consequence_b d = abandon_sector target.

(** A random source that differs from [steady] in three cells, which make the
    tenth turn bring a riot (the fifth entry of the list of crises) and then a
    dilemma. *)
Definition riot_tape : Rng :=
  mkRng (fun i => if (i =? 41)%nat then 0
                  else if (i =? 42)%nat then 4
                  else if (i =? 46)%nat then 0
                  else 9007199254740991) 0%nat.

Definition ten_waits : list string :=
  ["wait"; "wait"; "wait"; "wait"; "wait"; "wait"; "wait"; "wait"; "wait"; "wait"]%string.

(** Ten months of waiting, the last with a riot on level 8. *)
Definition rioted : Simulation := play ten_waits (snd (Simulation_init riot_tape)).

Definition level8_dilemma : Dilemma :=
  mkDilemma 8 RESIDENTIAL 15 (save_sector 7%nat) (abandon_sector 7%nat).

(** The tower as a list of (level, type), in list order. *)
Definition described (w : Simulation) : list (Z * SectorType) :=
  List.map (fun r => (level (store w r), sector_type (store w r))) (sectors (state w)).

(** The scalar fields of a state are those of a new game. *)
Definition newborn (w : Simulation) : Prop :=
  year (state w) = 1 /\ month (state w) = 1 /\
  food (state w) = 150%Q /\ power (state w) = 100%Q /\ materials (state w) = 80%Q /\
  population (state w) = 85 /\ morale (state w) = 65%Q /\
  tension (state w) = 0%Q /\ turns_since_crisis (state w) = 0 /\
  alive (state w) = true /\ victory_message (state w) = NoMessage /\
  cursor (state w) = 5 /\ max_height (state w) = 12 /\
  current_dilemma (state w) = None /\ building_mode (state w) = false.

(** Every sector object created so far is as the initial tower makes it. *)
Definition pristine (w : Simulation) : Prop :=
  forall r, (r < next_ref w)%nat ->
    health (store w r) = 100%Q /\ 8 <= workers (store w r) <= 15 /\
    on_fire (store w r) = false.

(** What the loop of [_initialize_tower] has done when [rest] is still to
    do. *)
Definition tower_rising (rest : list (Z * SectorType)) (w : Simulation) : Prop :=
  (exists done, tower_configs = done ++ rest /\ described w = done) /\
  (forall r, In r (sectors (state w)) -> (r < next_ref w)%nat) /\
  citizens (state w) = [] /\ events (state w) = [] /\
  year (state w) = 1 /\ month (state w) = 1.

Definition settled (c : Citizen) : Prop :=
  In (cit_role c) citizen_roles /\ 1 <= cit_location c <= 8 /\ cit_alive c = true.

(** What the loop of [_initialize_citizens] has done when [rest] is still to
    do. *)
Definition citizens_arriving (rest : list string) (w : Simulation) : Prop :=
  (exists done, firstn 5 citizen_names = done ++ rest /\
                List.map cit_name (citizens (state w)) = done) /\
  (forall c, In c (citizens (state w)) -> settled c) /\
  described w = tower_configs /\ events (state w) = [] /\
  year (state w) = 1 /\ month (state w) = 1.

(** No sector object is healthier than a new one. *)
Definition capped (w : Simulation) : Prop :=
  forall r, (health (store w r) <= 100)%Q.

(** A sector that an option of the outstanding dilemma reinforces is an
    object of the simulation, with health below 60. *)
Definition reinforcement_fits (w : Simulation) : Prop :=
  forall d t, current_dilemma (state w) = Some d ->
    consequence_a d = save_sector t \/ consequence_b d = save_sector t ->
    (t < next_ref w)%nat /\ (health (store w t) < 60)%Q.

Definition fitting (w : Simulation) : Prop := capped w /\ reinforcement_fits w.

Definition sound (w : Simulation) : Prop := fitting w /\ tower_ok w.

Definition undecided_free (w : Simulation) : Prop := current_dilemma (state w) = None.

(** The applications a player can bring about: [SpireApp()], then any
    sequence of key handlers, each returning normally. *)
Inductive played : SpireApp -> Prop :=
  | played_new g w :
      Simulation_init g = (Ok tt, w) -> played (mkSpireApp w false NoMessage)
  | played_key app app' h :
      played app -> In h all_handlers -> h app = (Ok tt, app') -> played app'.

(** A sequence of key presses, each handler run on what the one before left. *)
Definition keys (hs : list (SpireApp -> Result unit * SpireApp)) (app : SpireApp)
  : SpireApp :=
  List.fold_left (fun app h => snd (h app)) hs app.

(** Every handler of the sequence returns normally. *)
Fixpoint keys_return (hs : list (SpireApp -> Result unit * SpireApp)) (app : SpireApp)
  : bool :=
  match hs with
  | [] => true
  | h :: hs' =>
      match h app with
      | (Ok _, app') => keys_return hs' app'
      | (Raise _, _) => false
      end
  end.



(** A fresh application, the build key, then the repair key: building mode
    is still on, and the repair has been paid for. *)
Definition builder_short : SpireApp := keys [action_do_build; action_do_repair] fresh_app.

(** * Properties *)

(** ** Rules for [wp] and [keeps] *)

Lemma Qltb_true (x y : Q) : Qltb x y = true <-> (x < y)%Q.
Proof.
  unfold Qltb. rewrite negb_true_iff, <- not_true_iff_false, Qle_bool_iff.
  split; [apply Qnot_le_lt | apply Qlt_not_le].
Qed.

Lemma Qltb_false (x y : Q) : Qltb x y = false <-> (y <= x)%Q.
Proof. unfold Qltb. rewrite negb_false_iff. apply Qle_bool_iff. Qed.

Lemma wp_bind {A B} (m : M A) (k : A -> M B) Q E w :
  wp m (fun a w' => wp (k a) Q E w') E w -> wp (bind m k) Q E w.
Proof. unfold wp, bind. destruct (m w) as [[a|e] w']; auto. Qed.

Lemma wp_mono {A} (m : M A) (Q Q' : A -> Simulation -> Prop) (E E' : Simulation -> Prop) w :
  wp m Q E w -> (forall a w', Q a w' -> Q' a w') -> (forall w', E w' -> E' w') ->
  wp m Q' E' w.
Proof. unfold wp. destruct (m w) as [[a|e] w']; auto. Qed.

Lemma wp_snd {A} (m : M A) (P : Simulation -> Prop) w :
  wp m (fun _ => P) P w -> P (snd (m w)).
Proof. unfold wp. destruct (m w) as [[a|e] w']; auto. Qed.

Lemma wp_after {A} (m : M A) (P : Simulation -> Prop) w :
  wp m (fun _ => P) P w -> P (after m w).
Proof. apply wp_snd. Qed.

Lemma length_remove_nth {A} (i : nat) (l : list A) :
  (i < length l)%nat -> length (remove_nth i l) = pred (length l).
Proof.
  revert i. induction l as [|x l IH]; intros i Hi; simpl in *; [lia |].
  destruct i as [|i]; simpl; [reflexivity |].
  rewrite IH by lia. destruct l; simpl in *; lia.
Qed.

Lemma randint_range (a b d : Z) : a <= b -> a <= a + d mod (b - a + 1) <= b.
Proof. intros H. pose proof (Z.mod_pos_bound d (b - a + 1)). lia. Qed.

Section Keeps.
Context (P E : Simulation -> Prop).

Lemma keeps_ret {A} (a : A) : keeps P E (ret a).
Proof. intros w H. exact H. Qed.

Lemma keeps_bind {A B} (m : M A) (k : A -> M B) :
  keeps P E m -> (forall a, keeps P E (k a)) -> keeps P E (bind m k).
Proof.
  intros Hm Hk w H. apply wp_bind. eapply wp_mono; [apply Hm, H | | auto].
  intros a w' H'. apply Hk, H'.
Qed.

Lemma keeps_gets {A} (f : Simulation -> A) : keeps P E (gets f).
Proof. intros w H. exact H. Qed.

(** The value read is the value of a simulation that satisfies [P]. *)
Lemma keeps_gets_bind {A B} (f : Simulation -> A) (k : A -> M B) :
  (forall a, (exists w, P w /\ a = f w) -> keeps P E (k a)) ->
  keeps P E (bind (gets f) k).
Proof. intros Hk w H. apply wp_bind. apply (Hk (f w)); eauto. Qed.

Lemma keeps_raise {A} (e : Exn) : (forall w, P w -> E w) -> keeps P E (@raise A e).
Proof. intros HE w H. apply HE, H. Qed.

Lemma keeps_modify (f : GameState -> GameState) :
  (forall w, P w -> P (with_state f w)) -> keeps P E (modify f).
Proof. intros Hf w H. apply Hf, H. Qed.

Lemma keeps_update (r : ref) (f : Sector -> Sector) :
  (forall w, P w -> P (with_sector r f w)) -> keeps P E (update r f).
Proof. intros Hf w H. apply Hf, H. Qed.

Lemma keeps_alloc (x : Sector) :
  (forall w, P w -> P (with_new x w)) -> keeps P E (alloc x).
Proof. intros Hf w H. apply Hf, H. Qed.

Lemma keeps_when (b : bool) (m : M unit) : keeps P E m -> keeps P E (when b m).
Proof. intros Hm. destruct b; [exact Hm | apply keeps_ret]. Qed.

Lemma keeps_and_then (b : bool) (m : M bool) : keeps P E m -> keeps P E (and_then b m).
Proof. intros Hm. destruct b; [exact Hm | apply keeps_ret]. Qed.

Lemma keeps_for_each {A} (l : list A) (body : A -> M unit) :
  (forall x, keeps P E (body x)) -> keeps P E (for_each l body).
Proof.
  intros Hb. induction l as [|x l IH]; simpl.
  - apply keeps_ret.
  - apply keeps_bind; [apply Hb | intros _; exact IH].
Qed.

Lemma keeps_fold_each {A B} (l : list A) (acc : B) (body : B -> A -> M B) :
  (forall b x, keeps P E (body b x)) -> keeps P E (fold_each l acc body).
Proof.
  intros Hb. revert acc. induction l as [|x l IH]; intros acc; simpl.
  - apply keeps_ret.
  - apply keeps_bind; [apply Hb | intros acc'; apply IH].
Qed.

Lemma keeps_add_event (message : Message) (color : Color) :
  (forall f w, P w -> P (with_state (set_events f) w)) ->
  keeps P E (_add_event message color).
Proof.
  intros Hf. unfold _add_event, get. apply keeps_bind; [apply keeps_gets |].
  intros s. apply keeps_modify, Hf.
Qed.

(** The random module only moves the tape. *)
Hypothesis P_rng : forall g w, P w -> P (with_rng g w).

Lemma keeps_draw : keeps P E draw.
Proof. intros w H. apply P_rng, H. Qed.

Lemma keeps_randint_bind {B} (a b : Z) (k : Z -> M B) :
  (forall n, (a <= b -> a <= n <= b) -> keeps P E (k n)) ->
  keeps P E (bind (randint a b) k).
Proof.
  intros Hk w H. apply wp_bind. unfold randint. apply wp_bind.
  unfold wp at 1. cbn. apply Hk; [apply randint_range | apply P_rng, H].
Qed.

Lemma keeps_random : keeps P E random.
Proof.
  unfold random. apply keeps_bind; [apply keeps_draw | intros d; apply keeps_ret].
Qed.

Lemma keeps_random_lt (p : Q) : keeps P E (random_lt p).
Proof.
  unfold random_lt. apply keeps_bind; [apply keeps_random | intros r; apply keeps_ret].
Qed.

Lemma keeps_uniform (a b : Q) : keeps P E (uniform a b).
Proof.
  unfold uniform. apply keeps_bind; [apply keeps_random | intros r; apply keeps_ret].
Qed.

(** [choice] on a list that may be empty, for a continuation that works on
    every member. *)
Lemma keeps_choice_bind {A B} (l : list A) (k : A -> M B) :
  (l = [] -> forall w, P w -> E w) ->
  (forall x, In x l -> keeps P E (k x)) ->
  keeps P E (bind (choice l) k).
Proof.
  intros Hnil Hk w H. apply wp_bind. destruct l as [|x l].
  - unfold wp. cbn. auto.
  - pose (i := Z.to_nat (tape (rng w) (rpos (rng w)) mod Z.of_nat (length (x :: l)))).
    assert (Hc : choice (x :: l) w
                 = (Ok (nth i (x :: l) x),
                    with_rng (mkRng (tape (rng w)) (S (rpos (rng w)))) w))
      by reflexivity.
    unfold wp at 1. rewrite Hc. apply Hk; [| apply P_rng, H].
    destruct (nth_in_or_default i (x :: l) x) as [Hi|Hi];
      [exact Hi | rewrite Hi; left; reflexivity].
Qed.

(** [sample] raises only when asked for more than the list holds. *)
Lemma keeps_sample {A} (l : list A) (k : nat) :
  (k <= length l)%nat \/ (forall w, P w -> E w) -> keeps P E (sample l k).
Proof.
  revert l. induction k as [|k IH]; intros l HE; simpl.
  - apply keeps_ret.
  - destruct l as [|x l].
    + destruct HE as [HE|HE]; [simpl in HE; lia | apply keeps_raise, HE].
    + apply keeps_bind; [apply keeps_draw | intros d].
      apply keeps_bind; [| intros rest; apply keeps_ret].
      apply IH. destruct HE as [HE|HE]; [left | right; exact HE].
      rewrite length_remove_nth; [simpl in *; lia |].
      apply Nat2Z.inj_lt. rewrite Z2Nat.id; apply Z.mod_pos_bound; simpl; lia.
Qed.
End Keeps.

Lemma keeps_conj {A} (P1 P2 E1 E2 : Simulation -> Prop) (m : M A) :
  keeps P1 E1 m -> keeps P2 E2 m ->
  keeps (fun w => P1 w /\ P2 w) (fun w => E1 w /\ E2 w) m.
Proof.
  intros H1 H2 w (Hw1 & Hw2). specialize (H1 w Hw1). specialize (H2 w Hw2).
  unfold wp in *. destruct (m w) as [[a|e] w']; split; assumption.
Qed.

Lemma keeps_safe {A} (P E : Simulation -> Prop) (m : M A) :
  keeps P E m -> keeps anything nothing m -> keeps P nothing m.
Proof.
  intros H1 H2 w Hw. specialize (H1 w Hw). specialize (H2 w I).
  unfold wp in *. destruct (m w) as [[a|e] w']; [exact H1 | exact H2].
Qed.

Create HintDb engine.

#[local] Hint Unfold advance_turn advance_time production_phase consumption_phase
  crisis_phase _propagate_disasters sector_decay morale_population tension_pacing
  win_lose _trigger_crisis _trigger_minor_event _create_dilemma
  _crisis_earthquake _crisis_fire _crisis_disease _crisis_structural_failure
  _crisis_riot minor_events call resolve get sector get_sector
  GameState_post_init _initialize_tower _initialize_citizens : engine.

(** One step of a proof that a computation keeps a predicate; [side] proves
    that the primitive changes of the simulation keep it. *)
Ltac keeps_step side :=
  lazymatch goal with
  | |- keeps _ _ (ret _) => apply keeps_ret
  | |- keeps _ _ (gets _) => apply keeps_gets
  | |- keeps _ _ (modify _) => apply keeps_modify; side
  | |- keeps _ _ (update _ _) => apply keeps_update; side
  | |- keeps _ _ (alloc _) => apply keeps_alloc; side
  | |- keeps _ _ (_add_event _ _) => first [ side | apply keeps_add_event; side ]
  | |- keeps _ _ (random_lt _) => apply keeps_random_lt; side
  | |- keeps _ _ (uniform _ _) => apply keeps_uniform; side
  | |- keeps _ _ (sample _ _) => apply keeps_sample; side
  | |- keeps _ _ (raise _) => apply keeps_raise; side
  | |- keeps _ _ (when _ _) => apply keeps_when
  | |- keeps _ _ (and_then _ _) => apply keeps_and_then
  | |- keeps _ _ (for_each _ _) => apply keeps_for_each; intros ?
  | |- keeps _ _ (fold_each _ _ _) => apply keeps_fold_each; intros ? ?
  | |- keeps _ _ (bind (gets _) _) => apply keeps_gets_bind; intros ? ?
  | |- keeps _ _ (bind (randint _ _) _) => apply keeps_randint_bind; [side | intros ? ?]
  | |- keeps _ _ (bind (choice _) _) =>
      apply keeps_choice_bind;
      [side | try discriminate; side
      | let x := fresh "x" in let Hx := fresh "Hx" in
        intros x Hx;
        repeat match goal with
               | H : In _ (_ :: _) |- _ => destruct H as [<- | H]
               | H : In _ [] |- _ => destruct H
               end]
  | |- keeps _ _ (bind _ _) => apply keeps_bind; [| intros ?]
  | |- keeps _ _ (if ?b then _ else _) => destruct b eqn:?
  | |- keeps _ _ (match ?x with _ => _ end) => destruct x eqn:?
  | |- keeps _ _ (_process_action _) => side
  end.

Ltac keeps_auto side := repeat autounfold with engine; repeat keeps_step side.

(** *** [alive] is never set back to true *)

Ltac dead_side := solve [ intros; cbn in *; auto ].

Lemma _process_action_keeps_dead (action : string) :
  keeps dead dead (_process_action action).
Proof. unfold dead, _process_action. keeps_auto dead_side. Qed.

Lemma advance_turn_keeps_dead (action : string) : keeps dead dead (advance_turn action).
Proof.
  pose proof (_process_action_keeps_dead action) as Hact. unfold dead in *.
  keeps_auto ltac:(first [ exact Hact | dead_side ]).
Qed.

(** *** Food and power after a turn *)

Lemma Qplus_inject_nonneg (a : Q) (n : Z) : (0 <= a)%Q -> 0 <= n -> (0 <= a + inject_Z n)%Q.
Proof.
  intros Ha Hn. rewrite <- (Qplus_0_l 0). apply Qplus_le_compat; [exact Ha |].
  change 0%Q with (inject_Z 0). rewrite <- Zle_Qle. exact Hn.
Qed.

Ltac stocked_side :=
  solve [ intros; cbn in *; auto
        | let w := fresh in let Hf := fresh in let Hp := fresh in
          intros w [Hf Hp]; cbn; split; try assumption;
          apply Qplus_inject_nonneg; [assumption | lia] ].

Lemma after_crisis_keeps_stocked :
  keeps stocked stocked
    (_propagate_disasters ;; sector_decay ;; morale_population ;; tension_pacing ;; win_lose).
Proof. unfold stocked. keeps_auto stocked_side. Qed.

Ltac anything_side := solve [ intros; exact I ].

Lemma advance_time_safe : keeps anything nothing advance_time.
Proof. keeps_auto anything_side. Qed.

Lemma _process_action_safe action : keeps anything nothing (_process_action action).
Proof. unfold _process_action. keeps_auto anything_side. Qed.

Lemma production_phase_safe : keeps anything nothing production_phase.
Proof. keeps_auto anything_side. Qed.

Lemma consumption_phase_safe : keeps anything nothing consumption_phase.
Proof. keeps_auto anything_side. Qed.

Lemma crisis_phase_clamps w : wp crisis_phase (fun _ => stocked) nothing w.
Proof.
  unfold wp, crisis_phase, _add_event, get, gets, bind, when, modify. cbn.
  destruct (Qltb (food (state w)) 0) eqn:Hf; cbn;
    destruct (Qltb (power (state w)) 0) eqn:Hp; cbn;
    try (destruct (List.filter _ _) eqn:Hfun; cbn);
    unfold stocked; cbn; split;
    first [ apply Qle_refl | apply Qltb_false; assumption ].
Qed.

Lemma wp_safe_then {A B} (m : M A) (k : A -> M B) Q E w :
  keeps anything nothing m -> (forall a w', wp (k a) Q E w') -> wp (bind m k) Q E w.
Proof.
  intros Hm Hk. apply wp_bind. eapply wp_mono; [apply Hm; exact I | |].
  - intros a w' _. apply Hk.
  - intros w' [].
Qed.

(** C4. After every call of [advance_turn], whatever the action, the state it
    starts from and the random draws, [food >= 0] and [power >= 0]: the crisis
    phase clamps both and nothing after it subtracts from either. *)
Theorem advance_turn_food_power_nonneg (action : string) (w : Simulation) :
  (0 <= food (state (after (advance_turn action) w)))%Q /\
  (0 <= power (state (after (advance_turn action) w)))%Q.
Proof.
  change (stocked (after (advance_turn action) w)).
  apply wp_after. unfold advance_turn.
  apply wp_safe_then; [apply advance_time_safe | intros _ w1].
  apply wp_safe_then;
    [apply keeps_when, _process_action_safe | intros _ w2].
  apply wp_safe_then; [apply production_phase_safe | intros _ w3].
  apply wp_safe_then; [apply consumption_phase_safe | intros _ w4].
  apply wp_bind.
  eapply wp_mono; [apply crisis_phase_clamps | | intros w5 []].
  intros u w5 H5. apply after_crisis_keeps_stocked, H5.
Qed.

(** *** The tower: levels 1..n, at most [max_height] of them *)

Lemma level_alter (f : Sector -> Sector) (r r' : ref) (st : ref -> Sector) :
  (forall x, level (f x) = level x) -> level (alter f r st r') = level (st r').
Proof.
  intros Hf. destruct (decide (r = r')) as [->|Hne].
  - rewrite fn_lookup_alter. apply Hf.
  - rewrite fn_lookup_alter_ne by exact Hne. reflexivity.
Qed.

Lemma tower_ok_update (r : ref) (f : Sector -> Sector) (w : Simulation) :
  (forall x, level (f x) = level x) -> tower_ok w -> tower_ok (with_sector r f w).
Proof.
  intros Hf (Href & Hlv & Hlen). unfold tower_ok, levels in *. cbn.
  split; [exact Href | split; [| exact Hlen]].
  rewrite <- Hlv. apply List.map_ext. intros r'. apply level_alter, Hf.
Qed.

Lemma insert_by_level_le (st : ref -> Sector) (r : ref) (l : list ref) :
  match l with [] => True | r' :: _ => level (st r) <= level (st r') end ->
  insert_by_level st r l = r :: l.
Proof.
  destruct l as [|r' l]; simpl; [reflexivity |].
  intros H. apply Z.leb_le in H. rewrite H. reflexivity.
Qed.

(** A list whose levels already count upward is left as it is by the sort. *)
Lemma sort_by_level_counting (st : ref -> Sector) (l : list ref) (a : nat) :
  List.map (fun r => level (st r)) l = List.map Z.of_nat (seq a (length l)) ->
  sort_by_level st l = l.
Proof.
  revert a. induction l as [|r l IH]; intros a H; [reflexivity |].
  simpl in H. injection H as Hr Hl.
  change (sort_by_level st (r :: l)) with (insert_by_level st r (sort_by_level st l)).
  rewrite (IH (S a) Hl).
  apply insert_by_level_le. destruct l as [|r' l]; [exact I |].
  simpl in Hl. injection Hl as Hr' _. lia.
Qed.

Lemma tower_ok_append (w w' : Simulation) (x : Sector) :
  tower_ok w ->
  level x = len (sectors (state w)) + 1 ->
  len (sectors (state w)) + 1 <= max_height (state w) ->
  store w' = <[next_ref w := x]> (store w) ->
  next_ref w' = S (next_ref w) ->
  sectors (state w') = sectors (state w) ++ [next_ref w] ->
  max_height (state w') = max_height (state w) ->
  tower_ok w'.
Proof.
  intros (Href & Hlv & Hlen) Hx Hroom Hst Hnext Hsec Hmax.
  unfold tower_ok, levels, len in *.
  rewrite Hsec, Hnext, Hmax. split; [| split].
  - intros r Hr. apply List.in_app_iff in Hr. destruct Hr as [Hr | [<- | []]]; [| lia].
    apply Href in Hr. lia.
  - rewrite List.map_app, List.length_app, seq_app, List.map_app. simpl. f_equal.
    + rewrite <- Hlv. apply List.map_ext_in. intros r Hr. rewrite Hst.
      rewrite fn_lookup_insert_ne; [reflexivity |]. apply Href in Hr. lia.
    + rewrite Hst, fn_lookup_insert, Hx. f_equal. lia.
  - rewrite List.length_app. simpl. lia.
Qed.

Lemma tower_ok_build (w w' : Simulation) (x : Sector) :
  tower_ok w ->
  level x = len (sectors (state w)) + 1 ->
  len (sectors (state w)) + 1 <= max_height (state w) ->
  store w' = <[next_ref w := x]> (store w) ->
  next_ref w' = S (next_ref w) ->
  sectors (state w') = sort_by_level (store w') (sectors (state w) ++ [next_ref w]) ->
  max_height (state w') = max_height (state w) ->
  tower_ok w'.
Proof.
  intros Hw Hx Hroom Hst Hnext Hsec Hmax.
  pose (w1 := mkSimulation (set_sectors (fun l => l ++ [next_ref w]) (state w))
                (store w') (next_ref w') (rng w')).
  assert (H1 : tower_ok w1)
    by (apply (tower_ok_append w w1 x); auto).
  destruct H1 as (Href & Hlv & Hlen). unfold tower_ok, levels in *. cbn in Href, Hlv, Hlen.
  rewrite (sort_by_level_counting _ _ 1 Hlv) in Hsec. rewrite Hsec, Hmax. auto.
Qed.

Ltac tower_side :=
  solve [ intros; assumption
        | intros ?; apply tower_ok_update; intros ?; reflexivity
        | intros; unfold tower_ok, levels in *; cbn in *; assumption
        | auto ].

Lemma _process_action_keeps_tower (action : string) :
  keeps tower_ok tower_ok (_process_action action).
Proof.
  unfold _process_action.
  destruct (String.eqb action "repair"); [keeps_auto tower_side |].
  destruct (String.eqb action "extinguish"); [keeps_auto tower_side |].
  destruct (String.prefix "build" action); [| keeps_auto tower_side].
  intros w Hw. unfold wp, bind, get, gets. cbn.
  destruct (max_height (state w) <? len (sectors (state w)) + 1) eqn:Hmax; cbn.
  { exact Hw. }
  destruct (Qltb (materials (state w)) 80) eqn:Hmat; cbn.
  { exact Hw. }
  destruct (build_choice action) as [stype type_name]. cbn.
  apply Z.ltb_ge in Hmax.
  eapply (tower_ok_build w _ (new_Sector (len (sectors (state w)) + 1) stype _));
    [exact Hw | reflexivity | exact Hmax | reflexivity | reflexivity | reflexivity
    | reflexivity].
Qed.

Lemma advance_turn_keeps_tower (action : string) :
  keeps tower_ok tower_ok (advance_turn action).
Proof.
  pose proof (_process_action_keeps_tower action) as Hact.
  keeps_auto ltac:(first [ exact Hact | tower_side ]).
Qed.

Lemma call_keeps_tower (c : Consequence) : keeps tower_ok tower_ok (call c).
Proof. keeps_auto tower_side. Qed.

Lemma _initialize_tower_loop (cs : list (Z * SectorType)) (w : Simulation) :
  tower_ok w ->
  List.map fst cs = List.map Z.of_nat (seq (S (length (sectors (state w)))) (length cs)) ->
  len (sectors (state w)) + len cs <= max_height (state w) ->
  wp (for_each cs (fun c =>
        n <- randint 8 15 ;;
        r <- alloc (new_Sector (fst c) (snd c) n) ;;
        modify (set_sectors (fun l => l ++ [r]))))
     (fun _ => tower_ok) nothing w.
Proof.
  revert w. induction cs as [|c cs IH]; intros w Hw Hlv Hroom; [exact Hw |].
  simpl in Hlv. injection Hlv as Hc Hcs. unfold len in Hroom. simpl length in Hroom.
  simpl for_each. apply wp_bind.
  match goal with
  | |- wp ?body ?Q ?E w =>
      change (Q tt (with_state (set_sectors (fun l => l ++ [next_ref w]))
                      (with_new (new_Sector (fst c) (snd c)
                                   (8 + tape (rng w) (rpos (rng w)) mod (15 - 8 + 1)))
                         (with_rng (mkRng (tape (rng w)) (S (rpos (rng w)))) w))))
  end.
  cbv beta. apply IH.
  - eapply (tower_ok_append w); [exact Hw | | | reflexivity | reflexivity | reflexivity
                                | reflexivity].
    + simpl level. unfold len. lia.
    + unfold len. lia.
  - cbn [state with_state set_sectors sectors]. rewrite List.length_app. simpl length.
    rewrite Nat.add_1_r. exact Hcs.
  - cbn [state with_state set_sectors sectors max_height with_new with_rng].
    unfold len. rewrite List.length_app. simpl length. lia.
Qed.

Lemma wp_gets {A} (f : Simulation -> A) Q E w : Q (f w) w -> wp (gets f) Q E w.
Proof. exact id. Qed.

Lemma Simulation_init_tower (g : Rng) : tower_ok (snd (Simulation_init g)).
Proof.
  unfold Simulation_init. apply wp_snd.
  unfold Simulation__init__, GameState_post_init.
  apply wp_bind. apply wp_bind. unfold get at 1. apply wp_gets.
  change (when (match sectors (state (unborn g)) with [] => true | _ => false end)
            _initialize_tower)
    with _initialize_tower.
  apply wp_bind. unfold _initialize_tower.
  eapply wp_mono; [apply _initialize_tower_loop | | intros w' []].
  - split; [intros r [] | split; [reflexivity | unfold len; simpl; lia]].
  - reflexivity.
  - unfold len. simpl. lia.
  - intros u w1 H1. cbv beta.
    assert (Hrest : keeps tower_ok tower_ok
                      (s <- get ;;
                       when (match citizens s with [] => true | _ => false end)
                         _initialize_citizens))
      by keeps_auto tower_side.
    eapply wp_mono; [apply Hrest, H1 | | auto].
    intros u2 w2 H2. cbv beta.
    assert (Hev : forall m c, keeps tower_ok tower_ok (_add_event m c))
      by (intros; keeps_auto tower_side).
    apply wp_bind.
    eapply wp_mono; [apply Hev, H2 | | auto].
    intros u3 w3 H3. apply Hev, H3.
Qed.

Lemma reachable_tower (w : Simulation) : reachable w -> tower_ok w.
Proof.
  induction 1 as [g | w action _ IH | w c _ IH | w d pick _ IH Hd Hpick | w _ IH].
  - apply Simulation_init_tower.
  - apply wp_after, advance_turn_keeps_tower, IH.
  - exact IH.
  - apply wp_after. revert IH. apply keeps_bind; [apply call_keeps_tower |].
    intros _. keeps_auto tower_side.
  - exact IH.
Qed.

(** ** The claims *)

Lemma functional_sectors_with_state (f : GameState -> GameState) (w : Simulation) :
  sectors (f (state w)) = sectors (state w) ->
  functional_sectors (with_state f w) = functional_sectors w.
Proof. intros H. unfold functional_sectors. cbn. rewrite H. reflexivity. Qed.

(** C1, as the code has it.  The three end-of-game tests of [advance_turn] are
    three independent [if]s run in the order population, functional sectors,
    year; each one that holds sets [alive] to false and overwrites
    [victory_message], so the message left is that of the LAST test that
    holds: the year-50 message if [year >= 50], else total collapse if no
    sector is functional, else extinction if [population <= 0], else the
    message is untouched. *)
Theorem win_lose_last_match (w : Simulation) :
  fst (win_lose w) = Ok tt /\
  victory_message (state (after win_lose w)) =
    (if legendary w
     then Legendary (year (state w)) (if extinct w then 0 else population (state w))
     else if collapsed w then TotalCollapse (year (state w))
     else if extinct w then Extinction (year (state w))
     else victory_message (state w)) /\
  alive (state (after win_lose w)) =
    (if legendary w || collapsed w || extinct w then false else alive (state w)).
Proof.
  unfold legendary, collapsed, extinct, after, win_lose, bind, get, gets, when, modify.
  cbn.
  destruct (population (state w) <=? 0) eqn:Hpop; cbn;
    rewrite ?functional_sectors_with_state by reflexivity;
    destruct (functional_sectors w =? 0) eqn:Hfun; cbn;
    destruct (50 <=? year (state w)) eqn:Hyear; cbn; auto.
Qed.

(** C1 fails as stated: with nobody left in year 50 and all eight sectors
    functional, the extinction test fires first and the year-50 test then
    overwrites its message. *)
Lemma win_lose_first_match_counterexample :
  population (state extinct_at_50) <= 0 /\
  victory_message (state (after win_lose extinct_at_50)) = Legendary 50 0 /\
  victory_message (state (after (advance_turn "wait") extinct_at_50)) = Legendary 50 0.
Proof. repeat split; vm_compute; congruence. Qed.

(** *** The dilemma gate *)

Ltac frame_side := solve [ intros; cbn in *; auto ].

Lemma _process_action_keeps_clock (y m : Z) (action : string) :
  keeps (clock_is y m) (clock_is y m) (_process_action action).
Proof. unfold clock_is, _process_action. keeps_auto frame_side. Qed.

Lemma after_advance_time_keeps_clock (y m : Z) (action : string) :
  keeps (clock_is y m) (clock_is y m)
    (when (negb (String.eqb action "wait")) (_process_action action) ;;
     production_phase ;; consumption_phase ;; crisis_phase ;; _propagate_disasters ;;
     sector_decay ;; morale_population ;; tension_pacing ;; win_lose).
Proof.
  pose proof (_process_action_keeps_clock y m action) as Hact. unfold clock_is in *.
  keeps_auto ltac:(first [ exact Hact | frame_side ]).
Qed.

Lemma after_bind_ok {A B} (m : M A) (k : A -> M B) (w w1 : Simulation) (a : A) :
  m w = (Ok a, w1) -> after (bind m k) w = after (k a) w1.
Proof. unfold after, bind. intros ->. reflexivity. Qed.

Lemma advance_time_run (w : Simulation) :
  exists w1, advance_time w = (Ok tt, w1) /\
    clock_is (if 12 <? month (state w) + 1 then year (state w) + 1 else year (state w))
             (if 12 <? month (state w) + 1 then 1 else month (state w) + 1) w1.
Proof.
  unfold advance_time, bind, get, gets, when, modify, clock_is. cbn.
  destruct (12 <? month (state w) + 1); cbn; eauto.
Qed.

Lemma sim_check_game_over (app : SpireApp) : sim (check_game_over app) = sim app.
Proof. unfold check_game_over. destruct (_ && _); reflexivity. Qed.




Lemma build_type_handlers_inv (h : SpireApp -> Result unit * SpireApp) :
  In h build_type_handlers ->
  exists action, String.prefix "build" action = true /\ h = build_handler action.
Proof.
  intros Hh. unfold build_type_handlers in Hh. simpl in Hh.
  repeat (destruct Hh as [<- | Hh]; [eexists; split; [| reflexivity]; reflexivity |]).
  destruct Hh.
Qed.

Lemma played_keys (hs : list (SpireApp -> Result unit * SpireApp)) (app : SpireApp) :
  played app -> (forall h, In h hs -> In h all_handlers) -> keys_return hs app = true ->
  played (keys hs app).
Proof.
  revert app. induction hs as [|h hs IH]; intros app Happ Hin Hret; [exact Happ |].
  simpl in Hret. unfold keys. simpl. fold (keys hs (snd (h app))).
  destruct (h app) as [[[]|e] app'] eqn:Hh; [| discriminate Hret].
  apply IH; [| intros h' Hh'; apply Hin; right; exact Hh' | exact Hret].
  apply (played_key app app' h); [exact Happ | apply Hin; left; reflexivity | exact Hh].
Qed.




(** C3, as the code has it.  [advance_turn] never sets [alive] back to true:
    from a state with [alive == false], any number of further calls leaves
    [alive] false.  (It has no guard on [alive]; the clock, the population and
    the message keep changing.) *)
Theorem alive_never_resurrected (n : nat) (action : string) (w : Simulation) :
  alive (state w) = false ->
  alive (state (advance_turns n action w)) = false.
Proof.
  intros Hw. unfold advance_turns. induction n as [|n IH]; simpl; [exact Hw |].
  apply (wp_after (advance_turn action) dead). apply advance_turn_keeps_dead. exact IH.
Qed.

Lemma alive_never_resurrected_witness :
  alive (state dead_december) = false /\
  alive (state (advance_turns 3 "wait" dead_december)) = false.
Proof.
  assert (H : alive (state dead_december) = false) by reflexivity.
  exact (conj H (alive_never_resurrected 3 "wait" dead_december H)).
Defined.

(** C3 fails as stated: one more "wait" on a game that ended in December of
    year 1 moves the year and rewrites the message. *)
Lemma terminal_idempotence_counterexample :
  alive (state dead_december) = false /\
  year (state dead_december) = 1 /\
  year (state (advance_turns 1 "wait" dead_december)) = 2 /\
  victory_message (state dead_december) = Extinction 1 /\
  victory_message (state (advance_turns 1 "wait" dead_december)) = Extinction 2.
Proof. repeat split; vm_compute; congruence. Qed.

(** C5, as the code has it.  With [materials < 40] the action-resolution step
    of "repair" leaves [materials] and every sector's [health] as they were;
    it changes nothing but the log, which gets the rejection.  (The rest of
    the turn then produces materials and decays the sectors.) *)
Theorem repair_unaffordable (w : Simulation) :
  (materials (state w) < 40)%Q ->
  materials (state (after (_process_action "repair") w)) = materials (state w) /\
  (forall r, health (store (after (_process_action "repair") w) r) = health (store w r)) /\
  _process_action "repair" w
  = (Ok tt,
     with_state
       (set_events
          (append_event
             (mkEvent (year (state w)) (month (state w)) MsgNeed40Materials red)))
       w).
Proof.
  intros Hm. apply Qltb_true in Hm. unfold Qltb in Hm. apply negb_true_iff in Hm.
  assert (Hrun : _process_action "repair" w
                 = (Ok tt,
                    with_state
                      (set_events
                         (append_event
                            (mkEvent (year (state w)) (month (state w))
                               MsgNeed40Materials red)))
                      w)).
  { unfold _process_action, bind, get, get_sector, gets, _add_event, modify. cbn.
    destruct (find _ _); [rewrite Hm |]; reflexivity. }
  unfold after. rewrite Hrun. auto.
Qed.

Lemma repair_unaffordable_witness :
  (materials (state penniless) < 40)%Q /\
  materials (state (after (_process_action "repair") penniless))
  = materials (state penniless).
Proof.
  assert (H : (materials (state penniless) < 40)%Q) by reflexivity.
  exact (conj H (proj1 (repair_unaffordable penniless H))).
Defined.

(** C5 fails as stated for the whole turn: after [advance_turn("repair")]
    without materials the industry has produced 30 materials and the sector
    at level 1 has decayed to 98.5. *)
Lemma repair_turn_counterexample :
  (materials (state penniless) < 40)%Q /\
  (materials (state penniless) == 0)%Q /\
  (materials (state (after (advance_turn "repair") penniless)) == 30)%Q /\
  (health (store penniless 0%nat) == 100)%Q /\
  (health (store (after (advance_turn "repair") penniless) 0%nat) == 98.5)%Q.
Proof. repeat split; vm_compute; congruence. Qed.

(** *** No exception on a tower that has a sector *)

Lemma insert_by_level_nonempty (st : ref -> Sector) (r : ref) (l : list ref) :
  insert_by_level st r l <> [].
Proof. destruct l as [|r' l]; simpl; [| destruct (_ <=? _)]; discriminate. Qed.

Lemma sort_by_level_nonempty (st : ref -> Sector) (l : list ref) :
  l <> [] -> sort_by_level st l <> [].
Proof.
  destruct l as [|r l]; [congruence |]. intros _.
  change (sort_by_level st (r :: l)) with (insert_by_level st r (sort_by_level st l)).
  apply insert_by_level_nonempty.
Qed.

Ltac inhabited_side :=
  solve [ intros; assumption
        | intros; unfold inhabited in *; cbn in *; assumption
        | left; unfold len; lia
        | intros ?; discriminate
        | let Hl := fresh in
          intros Hl; exfalso;
          match goal with
          | H : exists w, inhabited w /\ _ = state w |- _ =>
              let w0 := fresh in let H0 := fresh in let E0 := fresh in
              destruct H as (w0 & H0 & E0); subst; exact (H0 Hl)
          end
        | intros ? ?; unfold inhabited in *; cbn;
          first [ apply sort_by_level_nonempty; assumption
                | intros Happ; apply List.app_eq_nil in Happ; destruct Happ; discriminate ] ].

Lemma _process_action_safe_inhabited (action : string) :
  keeps inhabited nothing (_process_action action).
Proof. unfold _process_action. keeps_auto inhabited_side. Qed.

Lemma advance_turn_safe (action : string) : keeps inhabited nothing (advance_turn action).
Proof.
  pose proof (_process_action_safe_inhabited action) as Hact.
  keeps_auto ltac:(first [ exact Hact | inhabited_side ]).
Qed.

Lemma unrecognized_action_skipped (action : string) (w : Simulation) :
  ~ recognized action ->
  when (negb (String.eqb action "wait")) (_process_action action) w = (Ok tt, w).
Proof.
  intros Hun. unfold recognized in Hun.
  destruct (String.eqb action "wait"); [reflexivity |]. simpl. unfold _process_action.
  destruct (String.eqb_spec action "repair"); [tauto |].
  destruct (String.eqb_spec action "extinguish"); [tauto |].
  destruct (String.prefix "build" action); [tauto |].
  destruct (String.eqb_spec action "boost_morale"); [tauto |].
  destruct (String.eqb_spec action "emergency_rations"); [tauto |].
  reflexivity.
Qed.

(** C6, as the code has it.  An action string that is none of "repair",
    "extinguish", "boost_morale", "emergency_rations" and does not start with
    "build" is treated exactly as "wait": same outcome, same resulting
    simulation, on the same state and random draws; and on a tower that has at
    least one sector the call raises nothing.  (A string that starts with
    "build" is a build order, of housing unless it names another type.) *)
Theorem unrecognized_action_is_wait (action : string) (w : Simulation) :
  ~ recognized action ->
  advance_turn action w = advance_turn "wait" w /\
  (sectors (state w) <> [] -> exists w', advance_turn action w = (Ok tt, w')).
Proof.
  intros Hun. split.
  - unfold advance_turn, bind. destruct (advance_time w) as [[[]|e] w1]; [| reflexivity].
    rewrite (unrecognized_action_skipped action w1 Hun). reflexivity.
  - intros Hw. pose proof (advance_turn_safe action w Hw) as Hsafe. unfold wp in Hsafe.
    destruct (advance_turn action w) as [[[]|e] w']; [eauto | destruct Hsafe].
Qed.

Lemma unrecognized_action_is_wait_witness :
  ~ recognized "dance" /\
  advance_turn "dance" fresh_world = advance_turn "wait" fresh_world.
Proof.
  assert (H : ~ recognized "dance").
  { unfold recognized. intros [H | [H | [H | [H | H]]]]; discriminate H. }
  exact (conj H (proj1 (unrecognized_action_is_wait "dance" fresh_world H))).
Defined.

(** C6 fails as stated: "build" is not one of the documented tags, yet
    [advance_turn("build")] on a fresh world builds a ninth sector, of
    housing, where [advance_turn("wait")] leaves eight. *)
Lemma unrecognized_build_counterexample :
  len (sectors (state (after (advance_turn "wait") fresh_world))) = 8 /\
  len (sectors (state (after (advance_turn "build") fresh_world))) = 9 /\
  sector_type (store (after (advance_turn "build") fresh_world) 8%nat) = RESIDENTIAL /\
  (materials (state (after (advance_turn "wait") fresh_world)) == 110)%Q /\
  (materials (state (after (advance_turn "build") fresh_world)) == 30)%Q.
Proof. repeat split; vm_compute; congruence. Qed.

(** C7 at the failing input.  With [population <= 30] the action-resolution
    step of "emergency_rations" does nothing at all: no field changes and no
    rejection is appended to the log. *)
Theorem emergency_rations_refusal_silent (w : Simulation) :
  population (state w) <= 30 ->
  _process_action "emergency_rations" w = (Ok tt, w).
Proof.
  intros Hp. apply Z.ltb_ge in Hp.
  unfold _process_action, bind, get, gets, when. cbn. rewrite Hp. reflexivity.
Qed.

Lemma emergency_rations_refusal_silent_witness :
  population (state thirty_left) <= 30 /\
  events (state (after (_process_action "emergency_rations") thirty_left))
  = events (state thirty_left).
Proof.
  assert (H : population (state thirty_left) <= 30) by (vm_compute; discriminate).
  refine (conj H _). unfold after.
  rewrite (emergency_rations_refusal_silent thirty_left H). reflexivity.
Defined.

(** C8.  In every simulation reachable from a freshly created world (by
    turns, cursor moves and dilemma choices) no two sectors have the same
    level and there are at most [max_height] sectors; a build order on a tower
    with [len(sectors) + 1 > max_height] leaves the list of sectors as it
    is. *)
Theorem level_uniqueness (w : Simulation) :
  reachable w ->
  List.NoDup (levels w) /\
  len (sectors (state w)) <= max_height (state w) /\
  (forall action, String.prefix "build" action = true ->
     max_height (state w) < len (sectors (state w)) + 1 ->
     sectors (state (after (_process_action action) w)) = sectors (state w)).
Proof.
  intros Hw. destruct (reachable_tower w Hw) as (_ & Hlv & Hlen). split; [| split].
  - rewrite Hlv. apply Finite.Injective_map_NoDup; [| apply seq_NoDup].
    intros a b. apply Nat2Z.inj.
  - exact Hlen.
  - intros action Hb Hfull. apply Z.ltb_lt in Hfull.
    unfold after, _process_action.
    destruct (String.eqb_spec action "repair") as [-> | _]; [discriminate Hb |].
    destruct (String.eqb_spec action "extinguish") as [-> | _]; [discriminate Hb |].
    rewrite Hb. unfold bind, get, gets, _add_event, modify. cbn. rewrite Hfull. reflexivity.
Qed.

Lemma level_uniqueness_witness :
  reachable (play ["build_farm"; "wait"]%string fresh_world) /\
  List.NoDup (levels (play ["build_farm"; "wait"]%string fresh_world)).
Proof.
  assert (H : reachable (play ["build_farm"; "wait"]%string fresh_world))
    by (apply reach_turn, reach_turn, reach_init).
  exact (conj H (proj1 (level_uniqueness _ H))).
Defined.

(** C9.  Option A of a dilemma always succeeds: it adds 40 to the health of
    the sector the dilemma was made for, takes 50 from [materials] whatever
    is there, and logs the reinforcement; so there is a state with an
    outstanding dilemma and [materials < 50] that it leaves with negative
    [materials]. *)
Theorem reinforce_unguarded :
  (forall w target,
     fst (call (save_sector target) w) = Ok tt /\
     health (store (after (call (save_sector target)) w) target)
     = (health (store w target) + 40)%Q /\
     materials (state (after (call (save_sector target)) w))
     = (materials (state w) - 50)%Q /\
     events (state (after (call (save_sector target)) w))
     = append_event
         (mkEvent (year (state w)) (month (state w))
            (MsgReinforced (level (store w target))) green)
         (events (state w))) /\
  (exists w d,
     current_dilemma (state w) = Some d /\
     (materials (state w) < 50)%Q /\
     (materials (state (after (call (consequence_a d)) w)) < 0)%Q).
Proof.
  split.
  - intros w target.
    unfold after, call, bind, sector, _add_event, get, gets, update, modify. cbn.
    rewrite !fn_lookup_alter. cbn. auto.
  - exists undecided_penniless, level3_dilemma. repeat split; vm_compute; congruence.
Qed.

Lemma reachable_play (actions : list string) (w : Simulation) :
  reachable w -> reachable (play actions w).
Proof.
  revert w. induction actions as [|a l IH]; intros w Hw; [exact Hw |].
  apply IH, reach_turn, Hw.
Qed.

(** C10.  Morale is not clamped.  Whenever [food >= 40] and [power >= 20]
    the action-resolution step of "boost_morale" adds exactly 30 to [morale],
    and a reachable state with [morale > 70] is taken above 100 by
    [advance_turn("boost_morale")]; the plague takes exactly 30 from [morale],
    and a reachable state with [morale >= 0] is left with negative [morale]
    by a turn in which the plague strikes. *)
Theorem morale_unclamped :
  (forall w, (40 <= food (state w))%Q -> (20 <= power (state w))%Q ->
     morale (state (after (_process_action "boost_morale") w))
     = (morale (state w) + 30)%Q) /\
  (exists w, reachable w /\ (70 < morale (state w))%Q /\
     (100 < morale (state (after (advance_turn "boost_morale") w)))%Q) /\
  (forall w, morale (state (after _crisis_disease w)) = (morale (state w) - 30)%Q) /\
  (exists w, reachable w /\ (0 <= morale (state w))%Q /\
     List.map ev_message
       (List.filter (fun e => ev_month e =? 11)
          (events (state (after (advance_turn "wait") w))))
     = [MsgFlee 4; MsgPlague 20] /\
     (morale (state (after (advance_turn "wait") w)) < 0)%Q).
Proof.
  split; [| split; [| split]].
  - intros w Hf Hp. apply Qle_bool_iff in Hf, Hp.
    unfold after, _process_action, bind, get, gets, _add_event, modify. cbn.
    rewrite Hf, Hp. reflexivity.
  - exists (play ["boost_morale"]%string fresh_world). split; [| split].
    + apply reachable_play, reach_init.
    + vm_compute. reflexivity.
    + vm_compute. reflexivity.
  - intros w. reflexivity.
  - exists (play nine_months (snd (Simulation_init plague_tape))). split; [| split; [| split]].
    + apply reachable_play, reach_init.
    + vm_compute. discriminate.
    + vm_compute. reflexivity.
    + vm_compute. reflexivity.
Qed.

Lemma morale_unclamped_witness :
  (40 <= food (state fresh_world))%Q /\ (20 <= power (state fresh_world))%Q /\
  morale (state (after (_process_action "boost_morale") fresh_world))
  = (morale (state fresh_world) + 30)%Q.
Proof.
  assert (Hf : (40 <= food (state fresh_world))%Q) by (vm_compute; discriminate).
  assert (Hp : (20 <= power (state fresh_world))%Q) by (vm_compute; discriminate).
  exact (conj Hf (conj Hp (proj1 morale_unclamped fresh_world Hf Hp))).
Defined.

(** ** Further properties of the engine *)

(** X1.  One call of [advance_turn] moves the calendar by exactly one month,
    whatever the action, the state and the random draws: below December the
    month goes up by one and the year stays; otherwise the month becomes 1 and
    the year goes up by one.  No later phase touches the calendar. *)
Theorem clock_advances (action : string) (w : Simulation) :
  (month (state w) < 12 ->
   year (state (after (advance_turn action) w)) = year (state w) /\
   month (state (after (advance_turn action) w)) = month (state w) + 1) /\
  (12 <= month (state w) ->
   year (state (after (advance_turn action) w)) = year (state w) + 1 /\
   month (state (after (advance_turn action) w)) = 1).
Proof.
  destruct (advance_time_run w) as (w1 & Hrun & Hclock).
  unfold advance_turn. rewrite (after_bind_ok _ _ w w1 tt Hrun).
  apply (after_advance_time_keeps_clock _ _ action), wp_after in Hclock.
  unfold clock_is in Hclock. revert Hclock.
  destruct (Z.ltb_spec 12 (month (state w) + 1)); intros [Hy Hm]; split; intros; try lia;
    split; assumption.
Qed.

Lemma clock_advances_witness :
  12 <= month (state dead_december) /\
  year (state (after (advance_turn "wait") dead_december)) = year (state dead_december) + 1 /\
  month (state (after (advance_turn "wait") dead_december)) = 1.
Proof.
  assert (H : 12 <= month (state dead_december)) by (vm_compute; discriminate).
  exact (conj H (proj2 (clock_advances "wait" dead_december) H)).
Defined.

(** *** The event log *)

Lemma append_event_bounded (e : Event) (l : list Event) :
  len l <= 50 -> len (append_event e l) <= 50.
Proof.
  unfold append_event, len. intros Hl.
  destruct (50 <? Z.of_nat (length (l ++ [e]))) eqn:Hc.
  - destruct l as [|x l]; simpl in *; [lia |]. rewrite List.length_app. simpl. lia.
  - apply Z.ltb_ge in Hc. exact Hc.
Qed.

Lemma _add_event_keeps_log (message : Message) (color : Color) :
  keeps log_bounded log_bounded (_add_event message color).
Proof.
  unfold _add_event, get. apply keeps_bind; [apply keeps_gets | intros s].
  apply keeps_modify. intros w Hw. unfold log_bounded in *. cbn.
  apply append_event_bounded, Hw.
Qed.

Ltac log_side :=
  solve [ apply _add_event_keeps_log
        | intros; unfold log_bounded in *; cbn in *; auto ].

Lemma _process_action_keeps_log (action : string) :
  keeps log_bounded log_bounded (_process_action action).
Proof. unfold _process_action. keeps_auto log_side. Qed.

Lemma advance_turn_keeps_log (action : string) :
  keeps log_bounded log_bounded (advance_turn action).
Proof.
  pose proof (_process_action_keeps_log action) as Hact.
  keeps_auto ltac:(first [ exact Hact | log_side ]).
Qed.

Lemma Simulation__init__keeps_log : keeps log_bounded log_bounded Simulation__init__.
Proof. unfold Simulation__init__. keeps_auto log_side. Qed.

(** An invariant of [Simulation()], of the turn and of what the drivers do
    between turns holds in every reachable simulation. *)
Lemma reachable_invariant (P : Simulation -> Prop) :
  (forall g, P (snd (Simulation_init g))) ->
  (forall action, keeps P P (advance_turn action)) ->
  (forall c, keeps P P (call c)) ->
  (forall f w, P w -> P (with_state (set_cursor f) w)) ->
  (forall f w, P w -> P (with_state (set_current_dilemma f) w)) ->
  (forall g w, P w -> P (with_rng g w)) ->
  forall w, reachable w -> P w.
Proof.
  intros Hinit Hturn Hcall Hcur Hdil Hrng w Hw.
  induction Hw as [g | w action _ IH | w c _ IH | w d pick _ IH Hd Hpick | w _ IH].
  - apply Hinit.
  - apply wp_after, Hturn, IH.
  - apply Hcur, IH.
  - apply wp_after. revert IH. apply keeps_bind; [apply Hcall | intros _].
    apply keeps_modify. intros w'. apply Hdil.
  - apply (Hrng _ w), IH.
Qed.

(** X2.  The event log never holds more than 50 entries in a reachable
    simulation; logging onto a log of 50 drops the oldest entry and appends
    the new one at the end. *)
Theorem event_log_bounded (w : Simulation) :
  reachable w ->
  len (events (state w)) <= 50 /\
  (forall e, len (events (state w)) = 50 ->
     append_event e (events (state w)) = tail (events (state w)) ++ [e]).
Proof.
  intros Hw. split.
  - revert w Hw. apply (reachable_invariant log_bounded).
    + intros g. unfold Simulation_init. apply wp_snd. apply Simulation__init__keeps_log.
      unfold log_bounded, len. simpl. lia.
    + apply advance_turn_keeps_log.
    + intros c. keeps_auto log_side.
    + intros f w' H. exact H.
    + intros f w' H. exact H.
    + intros g w' H. exact H.
  - intros e Hfull. unfold append_event, len in *. rewrite List.length_app. simpl length.
    destruct (Z.ltb_spec 50 (Z.of_nat (length (events (state w)) + 1))); [| lia].
    destruct (events (state w)); [simpl in Hfull; lia | reflexivity].
Qed.

Lemma event_log_bounded_witness :
  reachable (play nine_months fresh_world) /\
  len (events (state (play nine_months fresh_world))) <= 50.
Proof.
  assert (H : reachable (play nine_months fresh_world))
    by (apply reachable_play, reach_init).
  exact (conj H (proj1 (event_log_bounded _ H))).
Defined.

(** *** Population and tension after a turn *)

Lemma wp_ret {A} (a : A) Q E w : Q a w -> wp (ret a) Q E w.
Proof. exact id. Qed.

Lemma wp_modify (f : GameState -> GameState) Q E w :
  Q tt (with_state f w) -> wp (modify f) Q E w.
Proof. exact id. Qed.

Lemma wp_keeps {A} (P E : Simulation -> Prop) (m : M A) (w : Simulation) :
  keeps P E m -> P w -> wp m (fun _ => P) E w.
Proof. intros Hk Hw. apply Hk, Hw. Qed.

Ltac split_phases :=
  unfold bind;
  repeat match goal with
         | |- context [match ?m ?w with _ => _ end] =>
             destruct (m w) as [[[]|?] ?]; try reflexivity
         end.

Lemma advance_turn_split (action : string) (w : Simulation) :
  advance_turn action w = (before_win_lose action ;; win_lose) w.
Proof. unfold advance_turn, before_win_lose. split_phases. Qed.

Lemma advance_turn_split_pacing (action : string) (w : Simulation) :
  advance_turn action w = (before_pacing action ;; tension_pacing ;; win_lose) w.
Proof. unfold advance_turn, before_pacing. split_phases. Qed.

Lemma before_win_lose_safe (action : string) :
  keeps inhabited nothing (before_win_lose action).
Proof.
  pose proof (_process_action_safe_inhabited action) as Hact. unfold before_win_lose.
  keeps_auto ltac:(first [ exact Hact | inhabited_side ]).
Qed.

Lemma before_pacing_safe (action : string) :
  keeps inhabited nothing (before_pacing action).
Proof.
  pose proof (_process_action_safe_inhabited action) as Hact. unfold before_pacing.
  keeps_auto ltac:(first [ exact Hact | inhabited_side ]).
Qed.

Lemma win_lose_population (w : Simulation) :
  exists w', win_lose w = (Ok tt, w') /\ 0 <= population (state w') /\
             tension (state w') = tension (state w).
Proof.
  unfold win_lose, bind, get, gets, when, modify. cbn.
  destruct (Z.leb_spec (population (state w)) 0); cbn;
    rewrite ?functional_sectors_with_state by reflexivity;
    destruct (functional_sectors w =? 0); cbn;
    destruct (50 <=? year (state w)); cbn;
    eexists; (split; [reflexivity | cbn; split; [lia | reflexivity]]).
Qed.

(** X3.  On a tower that has at least one sector, [advance_turn] returns
    without raising and leaves [population >= 0], however far below zero the
    casualties of the turn took it: the end-of-game test clamps it. *)
Theorem population_nonneg_after_turn (action : string) (w : Simulation) :
  sectors (state w) <> [] ->
  exists w', advance_turn action w = (Ok tt, w') /\ 0 <= population (state w').
Proof.
  intros Hw. rewrite advance_turn_split.
  pose proof (before_win_lose_safe action w Hw) as H9. unfold wp in H9. unfold bind.
  destruct (before_win_lose action w) as [[[]|e] w9]; [| destruct H9].
  destruct (win_lose_population w9) as (w' & Hrun & Hpop & _). eauto.
Qed.

Lemma population_nonneg_after_turn_witness :
  sectors (state fresh_world) <> [] /\
  exists w', advance_turn "emergency_rations" fresh_world = (Ok tt, w') /\
             0 <= population (state w').
Proof.
  assert (H : sectors (state fresh_world) <> []) by (vm_compute; discriminate).
  exact (conj H (population_nonneg_after_turn "emergency_rations" fresh_world H)).
Defined.

Lemma calm_inhabited (a : GameState) :
  (exists w, calm w /\ a = state w) -> exists w, inhabited w /\ a = state w.
Proof. intros (w & [Hi _] & Ha). eauto. Qed.

Ltac calm_side :=
  solve [ intros; assumption
        | intros; unfold calm, inhabited in *; cbn in *; assumption
        | let w := fresh in let Hi := fresh in let Ht := fresh in
          intros w [Hi Ht]; split; [exact Hi | cbn; discriminate]
        | left; unfold len; lia
        | intros ?; discriminate
        | let Hl := fresh in
          intros Hl; exfalso;
          match goal with
          | H : exists w, calm w /\ _ = state w |- _ =>
              let w0 := fresh in let H0 := fresh in let E0 := fresh in
              destruct H as (w0 & [H0 _] & E0); subst; exact (H0 Hl)
          end ].

Lemma tension_pacing_calms (w : Simulation) :
  inhabited w -> wp tension_pacing (fun _ => calm) nothing w.
Proof.
  intros Hw. unfold tension_pacing.
  apply wp_bind, wp_modify. apply wp_bind. unfold get at 1. apply wp_gets.
  set (w1 := with_state (set_tension (fun t => (t + 2.5)%Q)) w).
  assert (H1 : inhabited w1) by exact Hw.
  destruct (Qltb 100 (tension (state w1))) eqn:Ht.
  - apply wp_bind, wp_ret. apply wp_bind. unfold when at 1.
    apply wp_bind.
    eapply wp_mono;
      [apply (wp_keeps inhabited nothing _trigger_crisis w1);
       [keeps_auto inhabited_side | exact H1] | | auto].
    intros u w2 H2. apply wp_bind, wp_modify, wp_modify.
    match goal with
    | |- wp ?m _ _ ?w3 =>
        apply (wp_keeps calm nothing m w3); [keeps_auto calm_side |]
    end.
    split; [exact H2 | cbn; discriminate].
  - apply Qltb_false in Ht.
    match goal with
    | |- wp ?m _ _ _ =>
        apply (wp_keeps calm nothing m w1); [keeps_auto calm_side | split; assumption]
    end.
Qed.

(** X4.  On a tower that has at least one sector, [advance_turn] returns
    with [tension <= 100], whatever the tension was: the pacing phase adds
    2.5 and, as soon as that exceeds 100, triggers a crisis and resets it to
    0. *)
Theorem tension_bounded_after_turn (action : string) (w : Simulation) :
  sectors (state w) <> [] ->
  exists w', advance_turn action w = (Ok tt, w') /\ (tension (state w') <= 100)%Q.
Proof.
  intros Hw. rewrite advance_turn_split_pacing.
  pose proof (before_pacing_safe action w Hw) as H8. unfold wp in H8.
  unfold bind at 1.
  destruct (before_pacing action w) as [[[]|e] w8]; [| destruct H8].
  pose proof (tension_pacing_calms w8 H8) as H9. unfold wp in H9. unfold bind.
  destruct (tension_pacing w8) as [[[]|e] w9]; [| destruct H9].
  destruct (win_lose_population w9) as (w' & Hrun & _ & Hten).
  exists w'. split; [exact Hrun |]. rewrite Hten. apply H9.
Qed.

Lemma tension_bounded_after_turn_witness :
  sectors (state fresh_world) <> [] /\
  exists w', advance_turn "wait" fresh_world = (Ok tt, w') /\
             (tension (state w') <= 100)%Q.
Proof.
  assert (H : sectors (state fresh_world) <> []) by (vm_compute; discriminate).
  exact (conj H (tension_bounded_after_turn "wait" fresh_world H)).
Defined.

(** *** The cursor and the end of the game in [SpireApp] *)

Lemma _process_action_keeps_cursor (c h : Z) (action : string) :
  keeps (cursor_is c h) (cursor_is c h) (_process_action action).
Proof. unfold cursor_is, _process_action. keeps_auto frame_side. Qed.

Lemma advance_turn_keeps_cursor (c h : Z) (action : string) :
  keeps (cursor_is c h) (cursor_is c h) (advance_turn action).
Proof.
  pose proof (_process_action_keeps_cursor c h action) as Hact. unfold cursor_is in *.
  keeps_auto ltac:(first [ exact Hact | frame_side ]).
Qed.

(** X5.  The cursor stays on the tower grid: no turn of the engine changes
    [cursor] or [max_height], and the two cursor keys keep
    [1 <= cursor <= max_height] (move up stops at [max_height], move down at
    1). *)
Theorem cursor_stays_in_range :
  (forall action w,
     cursor (state (after (advance_turn action) w)) = cursor (state w) /\
     max_height (state (after (advance_turn action) w)) = max_height (state w)) /\
  (forall app h,
     h = action_move_up \/ h = action_move_down ->
     1 <= cursor (state (sim app)) <= max_height (state (sim app)) ->
     fst (h app) = Ok tt /\
     1 <= cursor (state (sim (snd (h app)))) <= max_height (state (sim (snd (h app))))).
Proof.
  split.
  - intros action w.
    apply (wp_after (advance_turn action)
             (cursor_is (cursor (state w)) (max_height (state w)))).
    apply advance_turn_keeps_cursor. split; reflexivity.
  - intros app h [-> | ->] Hc; unfold action_move_up, action_move_down, on_sim, modify;
      destruct (game_over app); cbn; (split; [reflexivity | lia]).
Qed.

Lemma cursor_stays_in_range_witness :
  1 <= cursor (state (sim (mkSpireApp fresh_world false NoMessage)))
    <= max_height (state (sim (mkSpireApp fresh_world false NoMessage))) /\
  1 <= cursor (state (sim (snd (action_move_up (mkSpireApp fresh_world false NoMessage)))))
    <= max_height
         (state (sim (snd (action_move_up (mkSpireApp fresh_world false NoMessage))))).
Proof.
  assert (H : 1 <= cursor (state (sim (mkSpireApp fresh_world false NoMessage)))
              <= max_height (state (sim (mkSpireApp fresh_world false NoMessage))))
    by (vm_compute; split; discriminate).
  exact (conj H (proj2 (proj2 cursor_stays_in_range _ action_move_up
                          (or_introl eq_refl) H))).
Defined.

Lemma on_sim_check_latched (m : M unit) (app app' : SpireApp) :
  on_sim m check_game_over app = (Ok tt, app') -> latched app'.
Proof.
  destruct app as [w0 over msg]. unfold on_sim. cbn.
  destruct (m w0) as [[[]|e] w]; [| intros [=]].
  intros [= <-]. unfold latched, check_game_over, set_sim.
  destruct (alive (state w)) eqn:Ha; destruct over; cbn; rewrite ?Ha; cbn;
    congruence.
Qed.

Lemma on_sim_id_latched (m : M unit) (app app' : SpireApp) :
  (forall w, alive (state (snd (m w))) = alive (state w)) ->
  latched app -> on_sim m id app = (Ok tt, app') -> latched app'.
Proof.
  intros Hm Hl. destruct app as [w0 over msg]. unfold on_sim, latched in *. cbn in *.
  specialize (Hm w0). destruct (m w0) as [[[]|e] w]; [| intros [=]].
  intros [= <-]. cbn in *. rewrite Hm. exact Hl.
Qed.

Lemma Simulation_init_alive (g : Rng) (w : Simulation) :
  snd (Simulation_init g) = w -> alive (state w) = true.
Proof.
  intros <-. unfold Simulation_init.
  apply (wp_snd Simulation__init__ (fun w => alive (state w) = true)), wp_keeps;
    [| reflexivity].
  unfold Simulation__init__. keeps_auto frame_side.
Qed.

Lemma action_restart_latched (app app' : SpireApp) :
  action_restart app = (Ok tt, app') -> latched app'.
Proof.
  unfold action_restart.
  pose proof (Simulation_init_alive (rng (sim app))) as Halive.
  destruct (Simulation_init (rng (sim app))) as [[[]|e] w]; [| intros [=]].
  intros [= <-]. intros Hdead. cbn in Hdead. rewrite (Halive w eq_refl) in Hdead.
  discriminate Hdead.
Qed.

(** X6.  The end of the game latches in the application.  Once [game_over]
    is set, every handler that tests it (the six action keys, the two dilemma
    choices, the two cursor keys) returns without touching anything; and every
    handler that returns normally leaves the application knowing about a dead
    world ([alive == false] implies [game_over]) if it knew before. *)
Theorem game_over_latches :
  (forall app h, In h guarded_handlers -> game_over app = true -> h app = (Ok tt, app)) /\
  (forall app app' h,
     In h all_handlers -> latched app -> h app = (Ok tt, app') -> latched app').
Proof.
  split.
  - intros app h Hh Hover. unfold guarded_handlers, turn_handlers in Hh. simpl in Hh.
    repeat (destruct Hh as [<- | Hh];
            [unfold action_do_repair, action_do_extinguish, action_do_build,
               action_do_morale, action_do_rations, action_do_wait, action_choice_a,
               action_choice_b, action_move_up, action_move_down;
             rewrite Hover; reflexivity |]).
    destruct Hh.
  - intros app app' h Hh Hl. unfold all_handlers, guarded_handlers, turn_handlers in Hh.
    simpl in Hh.
    repeat (destruct Hh as [<- | Hh]); [.. | destruct Hh];
      unfold action_do_repair, action_do_extinguish, action_do_build,
        action_do_morale, action_do_rations, action_do_wait, action_choice_a,
        action_choice_b, action_move_up, action_move_down, action_build_farm,
        action_build_power, action_build_industry, action_build_housing,
        build_handler, action_cancel_build;
      try lazymatch goal with
          | |- action_restart _ = _ -> _ => apply action_restart_latched
          end;
      repeat match goal with
             | |- (if ?b then _ else _) = _ -> _ => destruct b
             end;
      first [ intros [= <-]; exact Hl
            | apply on_sim_check_latched
            | apply on_sim_id_latched; [intros w; reflexivity | exact Hl] ].
Qed.

Lemma game_over_latches_witness :
  In action_do_wait guarded_handlers /\
  game_over (mkSpireApp dead_december true (Extinction 1)) = true /\
  action_do_wait (mkSpireApp dead_december true (Extinction 1))
  = (Ok tt, mkSpireApp dead_december true (Extinction 1)).
Proof.
  assert (Hin : In action_do_wait guarded_handlers)
    by (right; right; right; right; right; left; reflexivity).
  assert (Hover : game_over (mkSpireApp dead_december true (Extinction 1)) = true)
    by reflexivity.
  exact (conj Hin (conj Hover (proj1 game_over_latches _ _ Hin Hover))).
Defined.

(** *** What the actions do when they are carried out *)

Lemma sort_after_append (w : Simulation) (x : Sector) :
  tower_ok w ->
  level x = len (sectors (state w)) + 1 ->
  len (sectors (state w)) + 1 <= max_height (state w) ->
  sort_by_level (<[next_ref w := x]> (store w)) (sectors (state w) ++ [next_ref w])
  = sectors (state w) ++ [next_ref w].
Proof.
  intros Hw Hx Hroom.
  pose (w1 := mkSimulation (set_sectors (fun l => l ++ [next_ref w]) (state w))
                (<[next_ref w := x]> (store w)) (S (next_ref w)) (rng w)).
  assert (H1 : tower_ok w1)
    by (apply (tower_ok_append w w1 x); auto).
  destruct H1 as (_ & Hlv & _). unfold levels in Hlv. cbn in Hlv.
  exact (sort_by_level_counting _ _ 1 Hlv).
Qed.

(** X7.  A build order that is affordable on a reachable tower ([materials
    >= 80] and room for one more level) takes exactly 80 materials and puts
    one new sector on top: a new object, appended to the list, at level
    [len(sectors) + 1], of the type the order names (housing by default), at
    full health, with 5 to 10 workers; the sectors already there are not
    touched. *)
Theorem build_success (action : string) (w : Simulation) :
  reachable w ->
  String.prefix "build" action = true ->
  len (sectors (state w)) + 1 <= max_height (state w) ->
  (80 <= materials (state w))%Q ->
  exists n w',
    _process_action action w = (Ok tt, w') /\
    5 <= n <= 10 /\
    sectors (state w') = sectors (state w) ++ [next_ref w] /\
    store w' = <[next_ref w := new_Sector (len (sectors (state w)) + 1)
                                 (fst (build_choice action)) n]> (store w) /\
    ~ In (next_ref w) (sectors (state w)) /\
    materials (state w') = (materials (state w) - 80)%Q.
Proof.
  intros Hreach Hb Hroom Hmat. pose proof (reachable_tower w Hreach) as Hw.
  exists (5 + tape (rng w) (rpos (rng w)) mod (10 - 5 + 1)).
  unfold _process_action.
  destruct (String.eqb_spec action "repair") as [-> | _]; [discriminate Hb |].
  destruct (String.eqb_spec action "extinguish") as [-> | _]; [discriminate Hb |].
  rewrite Hb. unfold bind, get, gets, _add_event, modify. cbn.
  apply Z.ltb_ge in Hroom. rewrite Hroom.
  apply Qltb_false in Hmat. rewrite Hmat.
  destruct (build_choice action) as [stype type_name]. cbn.
  eexists. split; [reflexivity |]. cbn. split; [| split; [| split; [| split]]].
  - apply randint_range. lia.
  - apply sort_after_append; [exact Hw | reflexivity | apply Z.ltb_ge; exact Hroom].
  - reflexivity.
  - intros Hin. destruct Hw as (Href & _). apply Href in Hin. lia.
  - reflexivity.
Qed.

Lemma build_success_witness :
  reachable fresh_world /\
  exists n w',
    _process_action "build_farm" fresh_world = (Ok tt, w') /\
    5 <= n <= 10 /\
    sectors (state w') = sectors (state fresh_world) ++ [next_ref fresh_world] /\
    store w' = <[next_ref fresh_world :=
                   new_Sector (len (sectors (state fresh_world)) + 1)
                     (fst (build_choice "build_farm")) n]> (store fresh_world) /\
    ~ In (next_ref fresh_world) (sectors (state fresh_world)) /\
    materials (state w') = (materials (state fresh_world) - 80)%Q.
Proof.
  assert (H : reachable fresh_world) by apply reach_init.
  refine (conj H (build_success "build_farm" fresh_world H _ _ _)).
  - reflexivity.
  - vm_compute. discriminate.
  - vm_compute. discriminate.
Defined.

(** X8.  "repair" with a sector at the cursor and [materials >= 40] takes
    exactly 40 materials and raises the health of that sector (the first of
    the list at the cursor's level) by 50, capped at 100; no other sector
    changes, and the repaired sector ends at most at 100. *)
Theorem repair_success (w : Simulation) (r : ref) :
  List.find (fun r' => level (store w r') =? cursor (state w)) (sectors (state w)) = Some r ->
  (40 <= materials (state w))%Q ->
  exists w',
    _process_action "repair" w = (Ok tt, w') /\
    materials (state w') = (materials (state w) - 40)%Q /\
    health (store w' r) = Qmin 100 (health (store w r) + 50) /\
    (health (store w' r) <= 100)%Q /\
    (forall r', r' <> r -> store w' r' = store w r').
Proof.
  intros Hfind Hmat. apply Qle_bool_iff in Hmat.
  unfold _process_action, bind, get, get_sector, gets, _add_event, modify, update. cbn.
  rewrite Hfind, Hmat. cbn. eexists. split; [reflexivity |]. cbn.
  rewrite !fn_lookup_alter. cbn. split; [reflexivity | split; [reflexivity | split]].
  - apply Q.le_min_l.
  - intros r' Hne. rewrite !fn_lookup_alter_ne by congruence. reflexivity.
Qed.

Lemma repair_success_witness :
  List.find (fun r' => level (store fresh_world r') =? cursor (state fresh_world))
    (sectors (state fresh_world)) = Some 4%nat /\
  exists w',
    _process_action "repair" fresh_world = (Ok tt, w') /\
    materials (state w') = (materials (state fresh_world) - 40)%Q /\
    health (store w' 4%nat) = Qmin 100 (health (store fresh_world 4%nat) + 50) /\
    (health (store w' 4%nat) <= 100)%Q /\
    (forall r', r' <> 4%nat -> store w' r' = store fresh_world r').
Proof.
  assert (H : List.find (fun r' => level (store fresh_world r') =? cursor (state fresh_world))
                (sectors (state fresh_world)) = Some 4%nat) by (vm_compute; reflexivity).
  refine (conj H (repair_success fresh_world 4%nat H _)). vm_compute. discriminate.
Defined.

(** X9.  "extinguish" with a burning sector at the cursor and [power >= 30]
    takes exactly 30 power and puts that fire out; the sector's health and
    fire counter and all other sectors stay as they were. *)
Theorem extinguish_success (w : Simulation) (r : ref) :
  List.find (fun r' => level (store w r') =? cursor (state w)) (sectors (state w)) = Some r ->
  on_fire (store w r) = true ->
  (30 <= power (state w))%Q ->
  exists w',
    _process_action "extinguish" w = (Ok tt, w') /\
    power (state w') = (power (state w) - 30)%Q /\
    store w' r = set_on_fire (fun _ => false) (store w r) /\
    (forall r', r' <> r -> store w' r' = store w r') /\
    events (state w')
    = append_event
        (mkEvent (year (state w)) (month (state w)) (MsgExtinguished (cursor (state w)))
           green)
        (events (state w)).
Proof.
  intros Hfind Hfire Hpow. apply Qle_bool_iff in Hpow.
  unfold _process_action, bind, get, get_sector, sector, gets, _add_event, modify, update.
  cbn. rewrite Hfind. cbn. rewrite Hfire, Hpow. cbn.
  eexists. split; [reflexivity |]. cbn. rewrite fn_lookup_alter.
  repeat split. intros r' Hne. rewrite fn_lookup_alter_ne by congruence. reflexivity.
Qed.

Lemma extinguish_success_witness :
  List.find (fun r' => level (store burning r') =? cursor (state burning))
    (sectors (state burning)) = Some 4%nat /\
  on_fire (store burning 4%nat) = true /\
  exists w',
    _process_action "extinguish" burning = (Ok tt, w') /\
    power (state w') = (power (state burning) - 30)%Q /\
    store w' 4%nat = set_on_fire (fun _ => false) (store burning 4%nat) /\
    (forall r', r' <> 4%nat -> store w' r' = store burning r') /\
    events (state w')
    = append_event
        (mkEvent (year (state burning)) (month (state burning))
           (MsgExtinguished (cursor (state burning))) green)
        (events (state burning)).
Proof.
  assert (H : List.find (fun r' => level (store burning r') =? cursor (state burning))
                (sectors (state burning)) = Some 4%nat) by (vm_compute; reflexivity).
  assert (Hf : on_fire (store burning 4%nat) = true) by (vm_compute; reflexivity).
  refine (conj H (conj Hf (extinguish_success burning 4%nat H Hf _))).
  vm_compute. discriminate.
Defined.

(** X10.  The refusals that are logged: an "extinguish" that finds no sector
    at the cursor, or one that is not burning, or less than 30 power; a
    "boost_morale" with less than 40 food or less than 20 power; a build order
    on a full tower, or with less than 80 materials.  Each leaves the
    simulation exactly as it was except for one red entry in the log. *)
Theorem refusals_logged (w : Simulation) :
  ((forall r,
      List.find (fun r' => level (store w r') =? cursor (state w)) (sectors (state w))
      = Some r ->
      on_fire (store w r) = false \/ (power (state w) < 30)%Q) ->
   _process_action "extinguish" w = (Ok tt, logged MsgNeed30PowerOrNoFire red w)) /\
  ((food (state w) < 40)%Q \/ (power (state w) < 20)%Q ->
   _process_action "boost_morale" w = (Ok tt, logged MsgNeedFoodPower red w)) /\
  (forall action, String.prefix "build" action = true ->
     (max_height (state w) < len (sectors (state w)) + 1 ->
      _process_action action w = (Ok tt, logged MsgAtMaximumHeight red w)) /\
     (len (sectors (state w)) + 1 <= max_height (state w) ->
      (materials (state w) < 80)%Q ->
      _process_action action w = (Ok tt, logged MsgNeed80Materials red w))).
Proof.
  split; [| split].
  - intros Hno.
    unfold _process_action, bind, get, get_sector, sector, gets, _add_event, modify. cbn.
    destruct (find _ _) as [r|] eqn:Hfind; [| reflexivity]. cbn.
    destruct (Hno r eq_refl) as [Hf | Hp].
    + rewrite Hf. reflexivity.
    + apply Qltb_true in Hp. unfold Qltb in Hp. apply negb_true_iff in Hp.
      rewrite Hp, andb_false_r. reflexivity.
  - intros Hshort.
    unfold _process_action, bind, get, gets, _add_event, modify. cbn.
    destruct Hshort as [H | H]; apply Qltb_true in H; unfold Qltb in H;
      apply negb_true_iff in H; rewrite H, ?andb_false_r; reflexivity.
  - intros action Hb. unfold _process_action.
    destruct (String.eqb_spec action "repair") as [-> | _]; [discriminate Hb |].
    destruct (String.eqb_spec action "extinguish") as [-> | _]; [discriminate Hb |].
    rewrite Hb. unfold bind, get, gets, _add_event, modify. cbn. split.
    + intros Hfull. apply Z.ltb_lt in Hfull. rewrite Hfull. reflexivity.
    + intros Hroom Hmat. apply Z.ltb_ge in Hroom. rewrite Hroom.
      apply Qltb_true in Hmat. rewrite Hmat. reflexivity.
Qed.

Lemma refusals_logged_witness :
  len (sectors (state penniless)) + 1 <= max_height (state penniless) /\
  (materials (state penniless) < 80)%Q /\
  _process_action "build_power" penniless
  = (Ok tt, logged MsgNeed80Materials red penniless).
Proof.
  assert (Hroom : len (sectors (state penniless)) + 1 <= max_height (state penniless))
    by (vm_compute; discriminate).
  assert (Hmat : (materials (state penniless) < 80)%Q) by reflexivity.
  exact (conj Hroom (conj Hmat
           (proj2 (proj2 (proj2 (refusals_logged penniless)) "build_power"%string eq_refl)
              Hroom Hmat))).
Defined.

(** *** Dilemmas *)

Lemma filter_nth_In {A} (f : A -> bool) (l0 l : list A) (x : A) (i : nat) :
  List.filter f l0 = x :: l ->
  In (nth i (x :: l) x) l0 /\ f (nth i (x :: l) x) = true.
Proof.
  intros Hf. apply List.filter_In. rewrite Hf.
  destruct (nth_in_or_default i (x :: l) x) as [H | H]; [exact H |].
  rewrite H. left. reflexivity.
Qed.

(** X11.  [_create_dilemma] never raises, and which of its two paths it
    takes is decided by the tower alone.  If no sector of the tower has a
    health strictly between 20 and 60, it changes nothing and draws nothing.
    If some sector has, it consumes exactly one random draw and stores a
    dilemma whose two options are bound to the same sector, one of the tower's
    sectors with [20 < health < 60], described by that sector's level, type
    and workers; nothing else changes. *)
Theorem _create_dilemma_target (w : Simulation) :
  ((forall r, In r (sectors (state w)) -> ~ (20 < health (store w r) < 60)%Q) ->
   _create_dilemma w = (Ok tt, w)) /\
  (forall r, In r (sectors (state w)) -> (20 < health (store w r) < 60)%Q ->
   exists target,
     In target (sectors (state w)) /\
     (20 < health (store w target) < 60)%Q /\
     _create_dilemma w
     = (Ok tt,
        with_state
          (set_current_dilemma (fun _ =>
             Some (mkDilemma (level (store w target)) (sector_type (store w target))
                     (workers (store w target)) (save_sector target)
                     (abandon_sector target))))
          (with_rng (mkRng (tape (rng w)) (S (rpos (rng w)))) w))).
Proof.
  unfold _create_dilemma, bind, gets.
  destruct (List.filter _ (sectors (state w))) as [|r0 l] eqn:Hdam.
  - split; [reflexivity |]. intros r Hin (Hlo & Hhi). exfalso.
    assert (Hr : In r []); [| destruct Hr].
    rewrite <- Hdam. apply List.filter_In. split; [exact Hin |].
    apply andb_true_intro. split; apply Qltb_true; assumption.
  - set (i := Z.to_nat (tape (rng w) (rpos (rng w)) mod Z.of_nat (length (r0 :: l)))).
    destruct (filter_nth_In _ _ _ _ i Hdam) as [Hin Hcond].
    apply andb_prop in Hcond. destruct Hcond as [Hlo Hhi].
    apply Qltb_true in Hlo, Hhi. split.
    + intros Hnone. exfalso. exact (Hnone _ Hin (conj Hlo Hhi)).
    + intros r _ _. exists (nth i (r0 :: l) r0).
      split; [exact Hin | split; [split; assumption | reflexivity]].
Qed.

Lemma _create_dilemma_target_witness :
  (_create_dilemma fresh_world = (Ok tt, fresh_world)) /\
  In 7%nat (sectors (state rioted)) /\
  (20 < health (store rioted 7%nat) < 60)%Q /\
  exists target,
    In target (sectors (state rioted)) /\
    (20 < health (store rioted target) < 60)%Q /\
    _create_dilemma rioted
    = (Ok tt,
       with_state
         (set_current_dilemma (fun _ =>
            Some (mkDilemma (level (store rioted target)) (sector_type (store rioted target))
                    (workers (store rioted target)) (save_sector target)
                    (abandon_sector target))))
         (with_rng (mkRng (tape (rng rioted)) (S (rpos (rng rioted)))) rioted)).
Proof.
  assert (Hsound : forallb (fun r => negb (Qltb 20 (health (store fresh_world r)) &&
                                           Qltb (health (store fresh_world r)) 60))
                     (sectors (state fresh_world)) = true)
    by (vm_compute; reflexivity).
  assert (Hnone : forall r, In r (sectors (state fresh_world)) ->
                            ~ (20 < health (store fresh_world r) < 60)%Q).
  { intros r Hr (Hlo & Hhi).
    pose proof (proj1 (forallb_forall _ _) Hsound r Hr) as Hb.
    apply negb_true_iff, andb_false_iff in Hb.
    destruct Hb as [Hb | Hb]; apply Qltb_false in Hb.
    - exact (Qlt_not_le _ _ Hlo Hb).
    - exact (Qlt_not_le _ _ Hhi Hb). }
  assert (Hsec : sectors (state rioted) = [0; 1; 2; 3; 4; 5; 6; 7]%nat)
    by (vm_compute; reflexivity).
  assert (Hin : In 7%nat (sectors (state rioted))) by (rewrite Hsec; simpl; tauto).
  assert (Hlo : Qltb 20 (health (store rioted 7%nat)) = true) by (vm_compute; reflexivity).
  assert (Hhi : Qltb (health (store rioted 7%nat)) 60 = true) by (vm_compute; reflexivity).
  assert (Hweak : (20 < health (store rioted 7%nat) < 60)%Q)
    by (split; apply Qltb_true; assumption).
  exact (conj (proj1 (_create_dilemma_target fresh_world) Hnone)
           (conj Hin (conj Hweak (proj2 (_create_dilemma_target rioted) _ Hin Hweak)))).
Defined.

Lemma py_int_share (n : Z) : 0 <= n -> 0 <= py_int (inject_Z n * 0.3) <= n.
Proof.
  intros Hn. unfold py_int. cbn. rewrite Z.quot_div_nonneg by lia.
  split; [apply Z.div_pos; lia |].
  apply Z.div_le_upper_bound; lia.
Qed.

(** X12.  Option B of a dilemma (evacuate) empties and destroys the sector it
    is bound to: afterwards that sector has no workers, health 0 and is not
    functional; [morale] is down by exactly 15 and [population] by
    [int(workers * 0.3)], which for a sector with [workers >= 0] is between
    0 and [workers]. *)
Theorem evacuate_effect (w : Simulation) (target : ref) :
  0 <= workers (store w target) ->
  exists w',
    call (abandon_sector target) w = (Ok tt, w') /\
    workers (store w' target) = 0 /\
    health (store w' target) = 0%Q /\
    is_functional (store w' target) = false /\
    (forall r, r <> target -> store w' r = store w r) /\
    morale (state w') = (morale (state w) - 15)%Q /\
    population (state w')
    = population (state w) - py_int (inject_Z (workers (store w target)) * 0.3) /\
    population (state w) - workers (store w target) <= population (state w')
      <= population (state w).
Proof.
  intros Hwork. pose proof (py_int_share _ Hwork) as Hshare.
  unfold call, bind, sector, gets, _add_event, get, update, modify. cbn.
  eexists. split; [reflexivity |]. cbn. rewrite !fn_lookup_alter. cbn.
  repeat split; try lia.
  intros r Hne. rewrite !fn_lookup_alter_ne by congruence. reflexivity.
Qed.

Lemma evacuate_effect_witness :
  0 <= workers (store undecided 2%nat) /\
  exists w',
    call (abandon_sector 2%nat) undecided = (Ok tt, w') /\
    workers (store w' 2%nat) = 0 /\
    health (store w' 2%nat) = 0%Q /\
    is_functional (store w' 2%nat) = false /\
    (forall r, r <> 2%nat -> store w' r = store undecided r) /\
    morale (state w') = (morale (state undecided) - 15)%Q /\
    population (state w')
    = population (state undecided)
      - py_int (inject_Z (workers (store undecided 2%nat)) * 0.3) /\
    population (state undecided) - workers (store undecided 2%nat)
      <= population (state w') <= population (state undecided).
Proof.
  assert (H : 0 <= workers (store undecided 2%nat)) by (vm_compute; discriminate).
  exact (conj H (evacuate_effect undecided 2%nat H)).
Defined.

(** *** Famine, fire, windfalls *)

(** X13.  Famine.  When the crisis phase finds [food < 0] (and power is not
    short), it kills [min(int(population * 0.12), 15)] people, never more
    than 15, takes 25 from [morale], logs the starvation and puts [food] back
    to exactly 0; nothing else changes. *)
Theorem starvation (w : Simulation) :
  (food (state w) < 0)%Q ->
  (0 <= power (state w))%Q ->
  famine_deaths w <= 15 /\
  crisis_phase w
  = (Ok tt,
     with_state (set_food (fun _ => 0%Q))
       (logged (MsgStarvation (famine_deaths w)) red
          (with_state (fun s => set_morale (fun m => (m - 25)%Q)
                                  (set_population (fun p => p - famine_deaths w) s))
             w))).
Proof.
  intros Hf Hp. split; [apply Z.le_min_r |].
  apply Qltb_true in Hf. apply Qltb_false in Hp.
  unfold crisis_phase, bind, get, gets, when, _add_event, modify. cbn.
  rewrite Hf. cbn. rewrite Hp. reflexivity.
Qed.

Lemma starvation_witness :
  (food (state starving) < 0)%Q /\ (0 <= power (state starving))%Q /\
  famine_deaths starving = 10 /\
  population (state (after crisis_phase starving)) = 75 /\
  food (state (after crisis_phase starving)) = 0%Q.
Proof.
  assert (Hf : (food (state starving) < 0)%Q) by reflexivity.
  assert (Hp : (0 <= power (state starving))%Q) by (vm_compute; discriminate).
  assert (Hd : famine_deaths starving = 10) by (vm_compute; reflexivity).
  refine (conj Hf (conj Hp (conj Hd _))).
  unfold after. rewrite (proj2 (starvation starving Hf Hp)), Hd.
  split; [vm_compute; reflexivity | reflexivity].
Defined.

Lemma for_each_skip {A} (body : A -> M unit) (w : Simulation) (l : list A) :
  (forall x, In x l -> body x w = (Ok tt, w)) -> for_each l body w = (Ok tt, w).
Proof.
  induction l as [|x l IH]; intros Hb; [reflexivity |].
  simpl. unfold bind. rewrite (Hb x) by (left; reflexivity).
  apply IH. intros y Hy. apply Hb. right. exact Hy.
Qed.

(** X14.  Fire does not start by itself: on a tower where no sector is on
    fire, the disaster-propagation phase changes nothing and consumes no
    random draw. *)
Theorem no_fire_no_propagation (w : Simulation) :
  (forall r, In r (sectors (state w)) -> on_fire (store w r) = false) ->
  _propagate_disasters w = (Ok tt, w).
Proof.
  intros Hcold. unfold _propagate_disasters, bind at 1, get, gets.
  apply for_each_skip. intros r Hr. unfold bind, sector, gets.
  rewrite (Hcold r Hr). reflexivity.
Qed.

Lemma no_fire_no_propagation_witness :
  (forall r, In r (sectors (state fresh_world)) -> on_fire (store fresh_world r) = false) /\
  _propagate_disasters fresh_world = (Ok tt, fresh_world).
Proof.
  assert (H : forall r, In r (sectors (state fresh_world)) ->
                        on_fire (store fresh_world r) = false).
  { assert (Hs : sectors (state fresh_world) = [0; 1; 2; 3; 4; 5; 6; 7]%nat)
      by (vm_compute; reflexivity).
    intros r Hr. rewrite Hs in Hr. simpl in Hr.
    repeat (destruct Hr as [<- | Hr]; [vm_compute; reflexivity |]). destruct Hr. }
  exact (conj H (no_fire_no_propagation fresh_world H)).
Defined.

Lemma Qle_plus_inject (a b : Q) (n : Z) : (a <= b)%Q -> 0 <= n -> (a <= b + inject_Z n)%Q.
Proof.
  intros Hab Hn. rewrite <- (Qplus_0_r a). apply Qplus_le_compat; [exact Hab |].
  change 0%Q with (inject_Z 0). rewrite <- Zle_Qle. exact Hn.
Qed.

Ltac richer_side :=
  solve [ intros; assumption
        | intros; unfold richer_than in *; cbn in *; assumption
        | intros ?; discriminate
        | let w := fresh in
          intros w (? & ? & ? & ? & ? & ? & ?); unfold richer_than; cbn;
          repeat split; try assumption;
          first [ apply Qle_plus_inject; [assumption | lia] | lia ] ].

(** X15.  Minor events are windfalls: [_trigger_minor_event] never raises,
    never lowers [materials], [population], [power] or [food], and touches
    neither [morale] nor any sector. *)
Theorem minor_events_additive (w : Simulation) :
  exists w',
    _trigger_minor_event w = (Ok tt, w') /\
    (materials (state w) <= materials (state w'))%Q /\
    population (state w) <= population (state w') /\
    (power (state w) <= power (state w'))%Q /\
    (food (state w) <= food (state w'))%Q /\
    store w' = store w /\ sectors (state w') = sectors (state w) /\
    morale (state w') = morale (state w).
Proof.
  assert (Hk : keeps (richer_than w) nothing _trigger_minor_event)
    by keeps_auto richer_side.
  assert (H0 : richer_than w w).
  { unfold richer_than. repeat split; try apply Qle_refl; lia. }
  specialize (Hk w H0). unfold wp in Hk.
  destruct (_trigger_minor_event w) as [[[]|e] w']; [| destruct Hk].
  exists w'. split; [reflexivity | exact Hk].
Qed.

(** *** Who is still alive after a turn *)

Lemma before_win_lose_keeps_dead (action : string) :
  keeps dead dead (before_win_lose action).
Proof.
  pose proof (_process_action_keeps_dead action) as Hact.
  unfold before_win_lose, dead in *.
  keeps_auto ltac:(first [ exact Hact | dead_side ]).
Qed.

Lemma win_lose_survivor (w w' : Simulation) :
  win_lose w = (Ok tt, w') -> alive (state w') = true ->
  alive (state w) = true /\ year (state w') < 50 /\ 0 < population (state w') /\
  0 < functional_sectors w'.
Proof.
  unfold win_lose, bind, get, gets, when, modify. cbn.
  destruct (Z.leb_spec (population (state w)) 0); cbn;
    rewrite ?functional_sectors_with_state by reflexivity;
    destruct (Z.eqb_spec (functional_sectors w) 0); cbn;
    destruct (Z.leb_spec 50 (year (state w))); cbn;
    intros [= <-]; cbn; intros Ha; try discriminate Ha.
  repeat split; try assumption; try lia.
  unfold functional_sectors, len in *. lia.
Qed.

(** X16.  A simulation that is still alive when [advance_turn] returns was
    alive before, is in a year before 50, and has at least one inhabitant and
    one functional sector: year 50 always ends the game, so [alive] together
    with [year >= 50] is never observed after a turn. *)
Theorem survivors_after_turn (action : string) (w w' : Simulation) :
  advance_turn action w = (Ok tt, w') ->
  alive (state w') = true ->
  alive (state w) = true /\ year (state w') < 50 /\ 0 < population (state w') /\
  0 < functional_sectors w'.
Proof.
  rewrite advance_turn_split. unfold bind.
  pose proof (before_win_lose_keeps_dead action w) as Hdead. unfold wp in Hdead.
  destruct (before_win_lose action w) as [[[]|e] w9]; [| intros [=]].
  intros Hrun Ha. destruct (win_lose_survivor w9 w' Hrun Ha) as (Ha9 & Hrest).
  split; [| exact Hrest].
  destruct (alive (state w)) eqn:Haw; [reflexivity |].
  specialize (Hdead Haw). unfold dead in Hdead. congruence.
Qed.

Lemma survivors_after_turn_witness :
  advance_turn "wait" fresh_world = (Ok tt, after (advance_turn "wait") fresh_world) /\
  alive (state (after (advance_turn "wait") fresh_world)) = true /\
  year (state (after (advance_turn "wait") fresh_world)) < 50.
Proof.
  assert (Hrun : advance_turn "wait" fresh_world
                 = (Ok tt, after (advance_turn "wait") fresh_world)).
  { unfold after.
    assert (Hok : fst (advance_turn "wait" fresh_world) = Ok tt)
      by (vm_compute; reflexivity).
    destruct (advance_turn "wait" fresh_world) as [o w']. simpl in *. rewrite Hok.
    reflexivity. }
  assert (Ha : alive (state (after (advance_turn "wait") fresh_world)) = true)
    by (vm_compute; reflexivity).
  exact (conj Hrun (conj Ha (proj1 (proj2 (survivors_after_turn _ _ _ Hrun Ha))))).
Defined.

(** *** Workers *)

Ltac staffed_side :=
  solve [ intros; assumption
        | intros; unfold staffed in *; cbn in *; assumption
        | let w := fresh in let H := fresh in let r := fresh in
          intros w H r; cbn;
          match goal with
          | |- context [alter ?f ?r0 _ r] =>
              destruct (decide (r0 = r)) as [<- |];
              [rewrite fn_lookup_alter | rewrite fn_lookup_alter_ne by assumption];
              cbn; first [apply H | lia]
          | |- context [<[?r0 := _]> _ r] =>
              destruct (decide (r0 = r)) as [<- |];
              [rewrite fn_lookup_insert | rewrite fn_lookup_insert_ne by assumption];
              cbn; first [apply H | lia]
          end
        | auto ].

Lemma _process_action_keeps_staffed (action : string) :
  keeps staffed staffed (_process_action action).
Proof. unfold _process_action. keeps_auto staffed_side. Qed.

Lemma advance_turn_keeps_staffed (action : string) :
  keeps staffed staffed (advance_turn action).
Proof.
  pose proof (_process_action_keeps_staffed action) as Hact.
  keeps_auto ltac:(first [ exact Hact | staffed_side ]).
Qed.

Lemma Simulation__init__keeps_staffed : keeps staffed staffed Simulation__init__.
Proof. unfold Simulation__init__. keeps_auto staffed_side. Qed.

Lemma workers_never_negative_all (w : Simulation) : reachable w -> staffed w.
Proof.
  revert w. apply (reachable_invariant staffed).
  - intros g. unfold Simulation_init. apply wp_snd. apply Simulation__init__keeps_staffed.
    intros r. cbn. lia.
  - apply advance_turn_keeps_staffed.
  - intros c. keeps_auto staffed_side.
  - intros f w' H. exact H.
  - intros f w' H. exact H.
  - intros g w' H. exact H.
Qed.

(** X17.  No sector ever has a negative number of workers in a reachable
    simulation: sectors are created with 8 to 15 (initial tower) or 5 to 10
    (build) workers, and afterwards [workers] is only ever set to 0. *)
Theorem workers_never_negative (w : Simulation) (r : ref) :
  reachable w -> 0 <= workers (store w r).
Proof.
  intros Hw. apply workers_never_negative_all. exact Hw.
Qed.

Lemma workers_never_negative_witness :
  reachable (play nine_months fresh_world) /\
  0 <= workers (store (play nine_months fresh_world) 3%nat).
Proof.
  assert (H : reachable (play nine_months fresh_world))
    by (apply reachable_play, reach_init).
  exact (conj H (workers_never_negative _ 3%nat H)).
Defined.

(** *** Finding a sector by its level *)

Lemma find_counting (key : ref -> Z) (l : list ref) (a : nat) (lv : Z) :
  List.map key l = List.map Z.of_nat (seq a (length l)) ->
  List.find (fun r => key r =? lv) l
  = if (Z.of_nat a <=? lv) && (lv <? Z.of_nat a + len l)
    then nth_error l (Z.to_nat (lv - Z.of_nat a)) else None.
Proof.
  revert a. induction l as [|r l IH]; intros a H.
  - simpl find. destruct (_ && _); [| reflexivity].
    destruct (Z.to_nat (lv - Z.of_nat a)); reflexivity.
  - simpl in H. injection H as Hr Hl. simpl find. rewrite Hr.
    destruct (Z.eqb_spec (Z.of_nat a) lv) as [<- | Hne].
    + assert (E1 : (Z.of_nat a <=? Z.of_nat a) = true) by (apply Z.leb_le; lia).
      assert (E2 : (Z.of_nat a <? Z.of_nat a + len (r :: l)) = true)
        by (apply Z.ltb_lt; unfold len; simpl length; lia).
      rewrite E1, E2, Z.sub_diag. reflexivity.
    + rewrite (IH (S a) Hl). unfold len. simpl length.
      repeat match goal with
             | |- context [Z.leb ?x ?y] => destruct (Z.leb_spec x y)
             | |- context [Z.ltb ?x ?y] => destruct (Z.ltb_spec x y)
             end; simpl; try lia; try reflexivity.
      replace (Z.to_nat (lv - Z.of_nat a)) with (S (Z.to_nat (lv - Z.of_nat (S a))))
        by lia.
      reflexivity.
Qed.

(** X18.  In a reachable simulation [get_sector(level)] finds, for every
    level from 1 to [len(sectors)], the sector stored at position
    [level - 1] of the list, and that sector has this level; for any other
    level it returns [None].  It reads the simulation without changing it. *)
Theorem get_sector_by_level (w : Simulation) (lv : Z) :
  reachable w ->
  get_sector lv w
  = (Ok (if (1 <=? lv) && (lv <=? len (sectors (state w)))
         then nth_error (sectors (state w)) (Z.to_nat (lv - 1)) else None), w) /\
  (forall r, fst (get_sector lv w) = Ok (Some r) -> level (store w r) = lv).
Proof.
  intros Hw. destruct (reachable_tower w Hw) as (_ & Hlv & _). unfold levels in Hlv.
  unfold get_sector, gets. cbn. split.
  - f_equal. f_equal. rewrite (find_counting _ _ 1 lv Hlv).
    change (Z.of_nat 1) with 1.
    replace (lv <? 1 + len (sectors (state w))) with (lv <=? len (sectors (state w)));
      [reflexivity |].
    destruct (Z.leb_spec lv (len (sectors (state w)))),
             (Z.ltb_spec lv (1 + len (sectors (state w)))); lia || reflexivity.
  - intros r [= Hfind]. apply List.find_some in Hfind. destruct Hfind as [_ Heq].
    apply Z.eqb_eq in Heq. exact Heq.
Qed.

Lemma get_sector_by_level_witness :
  reachable fresh_world /\
  get_sector 5 fresh_world = (Ok (Some 4%nat), fresh_world) /\
  get_sector 9 fresh_world = (Ok None, fresh_world).
Proof.
  assert (H : reachable fresh_world) by apply reach_init.
  assert (Hs : sectors (state fresh_world) = [0; 1; 2; 3; 4; 5; 6; 7]%nat)
    by (vm_compute; reflexivity).
  refine (conj H (conj _ _)).
  - rewrite (proj1 (get_sector_by_level fresh_world 5 H)), Hs. reflexivity.
  - rewrite (proj1 (get_sector_by_level fresh_world 9 H)), Hs. reflexivity.
Defined.

(** *** What is shown of a sector *)

Ltac undisturbed_side :=
  solve [ intros; assumption
        | intros; unfold undisturbed in *; cbn in *; assumption
        | let w := fresh in let H := fresh in let r := fresh in
          intros w H r; cbn;
          match goal with
          | |- context [alter ?f ?r0 _ r] =>
              destruct (decide (r0 = r)) as [<- |];
              [rewrite fn_lookup_alter | rewrite fn_lookup_alter_ne by assumption];
              cbn; apply H
          | |- context [<[?r0 := _]> _ r] =>
              destruct (decide (r0 = r)) as [<- |];
              [rewrite fn_lookup_insert | rewrite fn_lookup_insert_ne by assumption];
              cbn; first [reflexivity | apply H]
          end
        | auto ].

Lemma _process_action_keeps_undisturbed (action : string) :
  keeps undisturbed undisturbed (_process_action action).
Proof. unfold _process_action. keeps_auto undisturbed_side. Qed.

Lemma advance_turn_keeps_undisturbed (action : string) :
  keeps undisturbed undisturbed (advance_turn action).
Proof.
  pose proof (_process_action_keeps_undisturbed action) as Hact.
  keeps_auto ltac:(first [ exact Hact | undisturbed_side ]).
Qed.

Lemma Simulation__init__keeps_undisturbed :
  keeps undisturbed undisturbed Simulation__init__.
Proof. unfold Simulation__init__. keeps_auto undisturbed_side. Qed.

(** X19.  The engine never sets the [disaster] field of a sector: it is
    [None] on every sector of every reachable simulation.  So [get_display]
    never shows a disaster; what it shows depends on health and type alone
    (critical below 30, damaged below 60, else the type), and a sector on fire
    at full health is shown with the symbol of its type. *)
Theorem display_ignores_fire (w : Simulation) (r : ref) :
  reachable w ->
  disaster (store w r) = None /\
  get_display (store w r)
  = (if Qltb (health (store w r)) 30 then ShowCritical
     else if Qltb (health (store w r)) 60 then ShowDamaged
     else ShowType (sector_type (store w r))) /\
  get_display (set_on_fire (fun _ => true) (store w r)) = get_display (store w r).
Proof.
  intros Hw.
  assert (Hd : undisturbed w).
  { revert w Hw. apply (reachable_invariant undisturbed).
    - intros g. unfold Simulation_init. apply wp_snd.
      apply Simulation__init__keeps_undisturbed. intros r'. reflexivity.
    - apply advance_turn_keeps_undisturbed.
    - intros c. keeps_auto undisturbed_side.
    - intros f w' H. exact H.
    - intros f w' H. exact H.
    - intros g w' H. exact H. }
  split; [apply Hd | split; [| reflexivity]].
  unfold get_display. rewrite (Hd r). reflexivity.
Qed.

Lemma display_ignores_fire_witness :
  reachable (play nine_months fresh_world) /\
  disaster (store (play nine_months fresh_world) 0%nat) = None.
Proof.
  assert (H : reachable (play nine_months fresh_world))
    by (apply reachable_play, reach_init).
  exact (conj H (proj1 (display_ignores_fire _ 0%nat H))).
Defined.

(** *** Production *)

Lemma Qle_plus_nonneg (a p : Q) : (0 <= p)%Q -> (a <= a + p)%Q.
Proof.
  intros Hp. rewrite <- (Qplus_0_r a) at 1. apply Qplus_le_compat; [apply Qle_refl | exact Hp].
Qed.

Lemma output_nonneg (n : Z) (c h : Q) :
  0 <= n -> (0 <= c)%Q -> (20 < h)%Q -> (0 <= inject_Z n * c * (h / 100))%Q.
Proof.
  intros Hn Hc Hh. apply Qmult_le_0_compat.
  - apply Qmult_le_0_compat; [| exact Hc].
    change 0%Q with (inject_Z 0). rewrite <- Zle_Qle. exact Hn.
  - unfold Qdiv. apply Qmult_le_0_compat; [| discriminate].
    apply Qlt_le_weak. eapply Qlt_trans; [| exact Hh]. reflexivity.
Qed.

Lemma produce_nonneg (gen : Q * Q * Q) (x : Sector) :
  0 <= workers x ->
  (0 <= fst (fst gen))%Q /\ (0 <= snd (fst gen))%Q /\ (0 <= snd gen)%Q ->
  (0 <= fst (fst (produce gen x)))%Q /\ (0 <= snd (fst (produce gen x)))%Q /\
  (0 <= snd (produce gen x))%Q.
Proof.
  intros Hw. destruct gen as [[p f] m]. intros (Hp & Hf & Hm). unfold produce.
  destruct (is_functional x) eqn:Hfun; cbn; [| auto].
  unfold is_functional in Hfun. apply andb_prop in Hfun. destruct Hfun as [Hh _].
  apply Qltb_true in Hh.
  destruct (sector_type x); cbn; repeat split; try assumption.
  - rewrite <- (Qplus_0_r 0). apply Qplus_le_compat; [exact Hf |].
    apply output_nonneg; [exact Hw | discriminate | exact Hh].
  - rewrite <- (Qplus_0_r 0). apply Qplus_le_compat; [exact Hp |].
    rewrite <- (Qmult_1_r (inject_Z (workers x * 3))).
    apply output_nonneg; [lia | discriminate | exact Hh].
  - rewrite <- (Qplus_0_r 0). apply Qplus_le_compat; [exact Hm |].
    rewrite <- (Qmult_1_r (inject_Z (workers x * 2))).
    apply output_nonneg; [lia | discriminate | exact Hh].
Qed.

Lemma fold_produce_nonneg (l : list Sector) (gen : Q * Q * Q) :
  (forall x, In x l -> 0 <= workers x) ->
  (0 <= fst (fst gen))%Q /\ (0 <= snd (fst gen))%Q /\ (0 <= snd gen)%Q ->
  (0 <= fst (fst (List.fold_left produce l gen)))%Q /\
  (0 <= snd (fst (List.fold_left produce l gen)))%Q /\
  (0 <= snd (List.fold_left produce l gen))%Q.
Proof.
  revert gen. induction l as [|x l IH]; intros gen Hl Hgen; [exact Hgen |].
  simpl. apply IH.
  - intros y Hy. apply Hl. right. exact Hy.
  - apply produce_nonneg; [apply Hl; left; reflexivity | exact Hgen].
Qed.

(** X20.  In a reachable simulation the production phase never raises and
    never lowers [power], [food] or [materials]; it changes nothing else. *)
Theorem production_never_lowers (w : Simulation) :
  reachable w ->
  exists w',
    production_phase w = (Ok tt, w') /\
    (power (state w) <= power (state w'))%Q /\
    (food (state w) <= food (state w'))%Q /\
    (materials (state w) <= materials (state w'))%Q /\
    store w' = store w /\ sectors (state w') = sectors (state w) /\
    population (state w') = population (state w).
Proof.
  intros Hw.
  assert (Hgen := fold_produce_nonneg (List.map (store w) (sectors (state w)))
                    (0%Q, 0%Q, 0%Q)).
  unfold production_phase, bind, gets, modify.
  destruct (List.fold_left produce _ _) as [[p f] m]. cbn in *.
  destruct Hgen as (Hp & Hf & Hm).
  - intros x Hx. apply List.in_map_iff in Hx. destruct Hx as (r & <- & _).
    apply workers_never_negative_all. exact Hw.
  - repeat split; discriminate.
  - eexists. split; [reflexivity |]. cbn.
    repeat split; apply Qle_plus_nonneg; assumption.
Qed.

Lemma production_never_lowers_witness :
  reachable fresh_world /\
  exists w',
    production_phase fresh_world = (Ok tt, w') /\
    (power (state fresh_world) <= power (state w'))%Q /\
    (food (state fresh_world) <= food (state w'))%Q /\
    (materials (state fresh_world) <= materials (state w'))%Q /\
    store w' = store fresh_world /\ sectors (state w') = sectors (state fresh_world) /\
    population (state w') = population (state fresh_world).
Proof.
  assert (H : reachable fresh_world) by apply reach_init.
  exact (conj H (production_never_lowers fresh_world H)).
Defined.

(** *** Building through the application *)

Lemma length_insert_by_level (st : ref -> Sector) (r : ref) (l : list ref) :
  length (insert_by_level st r l) = S (length l).
Proof.
  induction l as [|r' l IH]; simpl; [reflexivity |].
  destruct (_ <=? _); simpl; [reflexivity | rewrite IH; reflexivity].
Qed.

Lemma length_sort_by_level (st : ref -> Sector) (l : list ref) :
  length (sort_by_level st l) = length l.
Proof.
  induction l as [|r l IH]; [reflexivity |].
  change (sort_by_level st (r :: l)) with (insert_by_level st r (sort_by_level st l)).
  rewrite length_insert_by_level, IH. reflexivity.
Qed.

Lemma action_do_build_enters (app : SpireApp) :
  game_over app = false ->
  has_dilemma app = false ->
  (max_height (state (sim app)) <=? len (sectors (state (sim app)))) = false ->
  Qltb (materials (state (sim app))) 80 = false ->
  action_do_build app
  = (Ok tt, set_sim (with_state (set_building_mode (fun _ => true)) (sim app)) app).
Proof.
  intros Hover Hd Hh Hm. unfold action_do_build. rewrite Hover, Hd, Hh, Hm. reflexivity.
Qed.

(** What [action_do_build] has checked when it switches building mode on. *)
Lemma action_do_build_entered (app app1 : SpireApp) :
  action_do_build app = (Ok tt, app1) ->
  building_mode (state (sim app)) = false ->
  building_mode (state (sim app1)) = true ->
  len (sectors (state (sim app))) < max_height (state (sim app)) /\
  Qltb (materials (state (sim app))) 80 = false /\
  app1 = set_sim (with_state (set_building_mode (fun _ => true)) (sim app)) app.
Proof.
  destruct app as [w over msg]. unfold action_do_build. cbn.
  destruct (over || has_dilemma _); [intros [= <-]; cbn; congruence |].
  destruct (Z.leb_spec (max_height (state w)) (len (sectors (state w)))) as [Hfull | Hroom].
  { unfold on_sim, _add_event, bind, get, gets, modify. cbn. intros [= <-]. cbn. congruence. }
  destruct (Qltb (materials (state w)) 80) eqn:Hmat.
  { unfold on_sim, _add_event, bind, get, gets, modify. cbn. intros [= <-]. cbn. congruence. }
  unfold on_sim, modify. cbn. intros [= <-] _ _. auto.
Qed.

(** A build order with room and materials for it is carried out. *)
Lemma _process_action_builds (action : string) (w : Simulation) :
  String.prefix "build" action = true ->
  len (sectors (state w)) < max_height (state w) ->
  Qltb (materials (state w)) 80 = false ->
  exists w',
    _process_action action w = (Ok tt, w') /\
    len (sectors (state w')) = len (sectors (state w)) + 1 /\
    building_mode (state w') = building_mode (state w).
Proof.
  intros Hb Hroom Hmat. unfold _process_action.
  destruct (String.eqb_spec action "repair") as [-> | _]; [discriminate Hb |].
  destruct (String.eqb_spec action "extinguish") as [-> | _]; [discriminate Hb |].
  rewrite Hb. unfold bind, get, gets, _add_event, modify. cbn.
  assert (Hr : (max_height (state w) <? len (sectors (state w)) + 1) = false)
    by (apply Z.ltb_ge; lia).
  rewrite Hr, Hmat. destruct (build_choice action) as [stype type_name]. cbn.
  eexists. split; [reflexivity |]. cbn. split; [| reflexivity].
  unfold len.
  match goal with
  | |- context [length (List.fold_right (insert_by_level ?st) [] ?l)] =>
      change (List.fold_right (insert_by_level st) [] l) with (sort_by_level st l)
  end.
  rewrite length_sort_by_level, List.length_app. simpl. lia.
Qed.

(** The phases after the action step return normally on a tower that is
    not empty, and change neither the number of sectors nor the building
    mode. *)
Lemma advance_turn_tail_keeps_size (k : Z) (b : bool) :
  0 < k ->
  keeps (fun w => len (sectors (state w)) = k /\ building_mode (state w) = b) nothing
    (production_phase ;; consumption_phase ;; crisis_phase ;; _propagate_disasters ;;
     sector_decay ;; morale_population ;; tension_pacing ;; win_lose).
Proof.
  intros Hk w Hw.
  eapply wp_mono;
    [apply (keeps_conj inhabited
              (fun w => len (sectors (state w)) = k /\ building_mode (state w) = b)
              nothing
              (fun w => len (sectors (state w)) = k /\ building_mode (state w) = b))
    | intros a w' H'; exact (proj2 H') | intros w' H'; exact (proj1 H')].
  - keeps_auto inhabited_side.
  - keeps_auto frame_side.
  - split; [| exact Hw]. destruct Hw as (Hlen & _). unfold inhabited, len in *.
    destruct (sectors (state w)); [simpl in Hlen; lia | discriminate].
Qed.

Lemma on_sim_returns (m : M unit) (k : SpireApp -> SpireApp) (Q : Simulation -> Prop)
    (app : SpireApp) :
  (forall a, sim (k a) = sim a) ->
  wp m (fun _ => Q) nothing (sim app) ->
  exists app', on_sim m k app = (Ok tt, app') /\ Q (sim app').
Proof.
  intros Hk Hm. unfold on_sim. unfold wp in Hm.
  destruct (m (sim app)) as [[[]|e] w]; [| destruct Hm].
  eexists. split; [reflexivity |]. rewrite Hk. exact Hm.
Qed.

(** X21.  A type key pressed right after the build key gets its building.
    If [action_do_build] switches [building_mode] on, there is room for one
    more level and at least 80 materials; each of the four type keys, pressed
    on the application as the build key left it, then returns normally, with
    [building_mode] off again and one more sector in the tower.  This holds
    for the next key only: the other keys leave [building_mode] on while
    their turns spend materials, and after build key, repair key, farm key on
    a fresh application the build order is refused for want of materials. *)
Theorem build_confirmed_at_once :
  (forall (app app1 : SpireApp) (h : SpireApp -> Result unit * SpireApp),
     action_do_build app = (Ok tt, app1) ->
     building_mode (state (sim app)) = false ->
     building_mode (state (sim app1)) = true ->
     In h build_type_handlers ->
     exists app2,
       h app1 = (Ok tt, app2) /\
       len (sectors (state (sim app2))) = len (sectors (state (sim app))) + 1 /\
       building_mode (state (sim app2)) = false) /\
  (played builder_short /\
   building_mode (state (sim builder_short)) = true /\
   exists app2,
     action_build_farm builder_short = (Ok tt, app2) /\
     len (sectors (state (sim app2))) = len (sectors (state (sim builder_short))) /\
     List.map ev_message (events (state (sim app2)))
     = [MsgAwakens; MsgUnstable; MsgRepaired 5; MsgNeed80Materials]).
Proof.
  split.
  - intros app app1 h Hrun Hoff Hon Hh.
    destruct (action_do_build_entered app app1 Hrun Hoff Hon) as (Hroom & Hmat & ->).
    destruct (build_type_handlers_inv h Hh) as (action & Hb & ->).
    unfold build_handler. cbn [sim set_sim state with_state building_mode set_building_mode].
    cbn [negb].
    apply (on_sim_returns _ _
             (fun w => len (sectors (state w)) = len (sectors (state (sim app))) + 1 /\
                       building_mode (state w) = false));
      [apply sim_check_game_over |].
    cbn [sim set_sim]. apply wp_bind, wp_modify. unfold advance_turn.
    assert (Htime : keeps (fun w => len (sectors (state w)) = len (sectors (state (sim app)))
                                    /\ building_mode (state w) = false
                                    /\ max_height (state w) = max_height (state (sim app))
                                    /\ materials (state w) = materials (state (sim app)))
                      nothing advance_time).
    { apply (keeps_safe _ anything); [| apply advance_time_safe]. keeps_auto frame_side. }
    apply wp_bind. eapply wp_mono; [apply Htime | | intros w' []].
    { cbn. auto. }
    intros u w1 (Hlen & Hmode & Hmax & Hmats). cbv beta.
    assert (Hwait : String.eqb action "wait" = false).
    { destruct (String.eqb_spec action "wait") as [-> | _]; [discriminate Hb | reflexivity]. }
    rewrite Hwait. cbn [negb when]. apply wp_bind.
    destruct (_process_action_builds action w1 Hb) as (w2 & Hact & Hlen2 & Hmode2).
    { rewrite Hlen, Hmax. exact Hroom. }
    { rewrite Hmats. exact Hmat. }
    unfold wp at 1. rewrite Hact.
    eapply wp_mono;
      [apply (advance_turn_tail_keeps_size (len (sectors (state (sim app))) + 1) false)
      | intros a w' H'; exact H' | intros w' []].
    + unfold len. lia.
    + split; [rewrite Hlen2, Hlen; reflexivity | rewrite Hmode2; exact Hmode].
  - assert (Hplayed : played builder_short).
    { apply played_keys.
      - apply (played_new steady). vm_compute. reflexivity.
      - intros h Hh. simpl in Hh.
        unfold all_handlers, guarded_handlers, turn_handlers. simpl. tauto.
      - vm_compute. reflexivity. }
    split; [exact Hplayed |]. split; [vm_compute; reflexivity |].
    exists (snd (action_build_farm builder_short)).
    split; [| split]; vm_compute; reflexivity.
Qed.

Lemma build_confirmed_at_once_witness :
  action_do_build fresh_app
  = (Ok tt,
     set_sim (with_state (set_building_mode (fun _ => true)) (sim fresh_app)) fresh_app) /\
  exists app2,
    action_build_farm
      (set_sim (with_state (set_building_mode (fun _ => true)) (sim fresh_app)) fresh_app)
    = (Ok tt, app2) /\
    len (sectors (state (sim app2))) = len (sectors (state (sim fresh_app))) + 1 /\
    building_mode (state (sim app2)) = false.
Proof.
  assert (Hrun : action_do_build fresh_app
                 = (Ok tt,
                    set_sim (with_state (set_building_mode (fun _ => true)) (sim fresh_app))
                      fresh_app)).
  { apply action_do_build_enters; vm_compute; reflexivity. }
  assert (H0 : building_mode (state (sim fresh_app)) = false) by (vm_compute; reflexivity).
  refine (conj Hrun (proj1 build_confirmed_at_once fresh_app _ action_build_farm Hrun H0 _ _)).
  - reflexivity.
  - left. reflexivity.
Defined.

(** *** The scripted player *)

Lemma find_some_member {A} (f : A -> bool) (l : list A) (x : A) :
  In x l -> f x = true -> exists y, List.find f l = Some y.
Proof.
  induction l as [|a l IH]; intros Hin Hx; [destruct Hin |]. simpl.
  destruct (f a) eqn:Ha; [eauto |].
  destruct Hin as [-> | Hin]; [congruence | auto].
Qed.

Lemma find_unique_key (key : ref -> Z) (l : list ref) (r : ref) :
  List.NoDup (List.map key l) -> In r l ->
  List.find (fun r' => key r' =? key r) l = Some r.
Proof.
  induction l as [|a l IH]; intros Hnd Hin; [destruct Hin |].
  simpl in *. inversion Hnd as [|k ks Hnotin Hnd']; subst.
  destruct Hin as [-> | Hin]; [rewrite Z.eqb_refl; reflexivity |].
  destruct (Z.eqb_spec (key a) (key r)) as [Heq | _]; [| auto].
  exfalso. apply Hnotin. rewrite Heq. apply List.in_map. exact Hin.
Qed.

Lemma tower_levels_NoDup (w : Simulation) : tower_ok w -> List.NoDup (levels w).
Proof.
  intros (_ & Hlv & _). rewrite Hlv.
  apply Finite.Injective_map_NoDup; [| apply seq_NoDup]. intros a b. apply Nat2Z.inj.
Qed.

Lemma carried_out_repair (w : Simulation) (r : ref) :
  List.find (fun r' => level (store w r') =? cursor (state w)) (sectors (state w)) = Some r ->
  Qle_bool 40 (materials (state w)) = true ->
  carried_out "repair" w.
Proof.
  intros Hfind Hmat. unfold carried_out, _process_action, bind, get, get_sector, gets,
    _add_event, modify, update. cbn. rewrite Hfind, Hmat. cbn.
  eexists _, _. split; [reflexivity |]. cbn. split; reflexivity.
Qed.

Lemma carried_out_extinguish (w : Simulation) (r : ref) :
  List.find (fun r' => level (store w r') =? cursor (state w)) (sectors (state w)) = Some r ->
  on_fire (store w r) = true ->
  Qle_bool 30 (power (state w)) = true ->
  carried_out "extinguish" w.
Proof.
  intros Hfind Hfire Hpow. unfold carried_out, _process_action, bind, get, get_sector,
    sector, gets, _add_event, modify, update. cbn. rewrite Hfind. cbn.
  rewrite Hfire, Hpow. cbn. eexists _, _. split; [reflexivity |]. cbn. split; reflexivity.
Qed.

Lemma carried_out_rations (w : Simulation) :
  (30 <? population (state w)) = true -> carried_out "emergency_rations" w.
Proof.
  intros Hpop. unfold carried_out, _process_action, bind, get, gets, when, _add_event,
    modify. cbn. rewrite Hpop. cbn.
  eexists _, _. split; [reflexivity |]. cbn. split; reflexivity.
Qed.

Lemma carried_out_boost (w : Simulation) :
  Qle_bool 40 (food (state w)) = true -> Qle_bool 20 (power (state w)) = true ->
  carried_out "boost_morale" w.
Proof.
  intros Hf Hp. unfold carried_out, _process_action, bind, get, gets, _add_event, modify.
  cbn. rewrite Hf, Hp. cbn.
  eexists _, _. split; [reflexivity |]. cbn. split; reflexivity.
Qed.

Lemma carried_out_build (action : string) (w : Simulation) :
  String.prefix "build" action = true ->
  String.eqb action "repair" = false -> String.eqb action "extinguish" = false ->
  (len (sectors (state w)) <? max_height (state w)) = true ->
  (80 <= materials (state w))%Q ->
  carried_out action w.
Proof.
  intros Hb Hr He Hroom Hmat. apply Z.ltb_lt in Hroom. apply Qltb_false in Hmat.
  assert (Hh : (max_height (state w) <? len (sectors (state w)) + 1) = false)
    by (apply Z.ltb_ge; lia).
  unfold carried_out, _process_action. rewrite Hr, He, Hb.
  unfold bind, get, gets, _add_event, modify. cbn. rewrite Hh, Hmat.
  destruct (build_choice action) as [stype type_name]. cbn.
  eexists _, _. split; [reflexivity |]. cbn. split; reflexivity.
Qed.

Lemma Qle_bool_trans_from (a b x : Q) :
  (a <= b)%Q -> Qle_bool b x = true -> Qle_bool a x = true.
Proof.
  intros Hab Hbx. apply Qle_bool_iff. apply Qle_bool_iff in Hbx.
  eapply Qle_trans; eassumption.
Qed.

Lemma or_else_chosen (w : Simulation) (rule : M (option (string * Reason)))
    (rest : M (string * Reason)) :
  (exists d w1, rule w = (Ok (Some d), w1) /\ well_chosen w (Ok d, w1)) \/
  rule w = (Ok None, w) ->
  well_chosen w (rest w) ->
  well_chosen w (or_else rule rest w).
Proof.
  intros [(d & w1 & Hrule & Hgood) | Hnone] Hrest; unfold or_else, bind.
  - rewrite Hrule. exact Hgood.
  - rewrite Hnone. exact Hrest.
Qed.

Lemma same_but_cursor_refl (w : Simulation) : same_but_cursor w w.
Proof. repeat split. Qed.

Lemma same_but_cursor_aim (w : Simulation) (c : Z) :
  same_but_cursor w (with_state (set_cursor (fun _ => c)) w).
Proof. repeat split. Qed.

Lemma chosen (w w1 : Simulation) (action : string) (reason : Reason) :
  same_but_cursor w w1 -> action = "wait"%string \/ carried_out action w1 ->
  well_chosen w (Ok (action, reason), w1).
Proof. intros Hs Hc. exists action, reason, w1. auto. Qed.

Lemma aimed_repair (w : Simulation) (test : ref -> bool) (first : ref)
    (others : list ref) :
  List.filter test (sectors (state w)) = first :: others ->
  exists r,
    List.find (fun r' => level (store w r') =? level (store w first)) (sectors (state w))
    = Some r.
Proof.
  intros Hf. destruct (filter_nth_In _ _ _ _ 0%nat Hf) as [Hin _]. simpl in Hin.
  apply (find_some_member _ _ first Hin). apply Z.eqb_refl.
Qed.

(** X22.  The scripted player never gives an order the engine turns down.
    On a reachable simulation [choose_action] never raises and changes at
    most the cursor.  With a dilemma outstanding it answers the dilemma, and
    chooses to reinforce only with [materials >= 50]; otherwise it returns
    "wait" or an order whose action step is carried out (it ends with a log
    entry that is not a rejection): the fire it aims at is burning and there
    is power for it, the repairs and buildings it orders are paid for. *)
Theorem autoplayer_never_refused (w : Simulation) :
  reachable w ->
  (forall d, current_dilemma (state w) = Some d ->
     exists action reason,
       choose_action w = (Ok (action, reason), w) /\
       ((action = "dilemma_a"%string /\ (50 <= materials (state w))%Q) \/
        (action = "dilemma_b"%string /\ (materials (state w) < 50)%Q))) /\
  (current_dilemma (state w) = None -> well_chosen w (choose_action w)).
Proof.
  intros Hreach. pose proof (reachable_tower w Hreach) as Htower.
  pose proof (tower_levels_NoDup w Htower) as Hnd. unfold levels in Hnd.
  split.
  - intros d Hd. unfold choose_action, bind, get, gets. cbn. rewrite Hd.
    destruct (Qle_bool 50 (materials (state w))) eqn:Hm.
    + eexists _, _. split; [reflexivity |]. left. split; [reflexivity |].
      apply Qle_bool_iff. exact Hm.
    + eexists _, _. split; [reflexivity |]. right. split; [reflexivity |].
      apply Qltb_true. unfold Qltb. rewrite Hm. reflexivity.
  - intros Hd. unfold choose_action, bind at 1, get, gets. cbn. rewrite Hd.
    apply or_else_chosen.
    { unfold bind, sectors_where, sector, gets, modify.
      destruct (List.filter _ _) as [|first others] eqn:Hf; [right; reflexivity |].
      destruct (Qle_bool 30 (power (state w))) eqn:Hp; [| right; reflexivity].
      left. eexists _, _. split; [reflexivity |].
      apply chosen; [apply same_but_cursor_aim | right].
      destruct (filter_nth_In _ _ _ _ 0%nat Hf) as [Hin Hfire]. simpl in Hin, Hfire.
      apply (carried_out_extinguish _ first); cbn; [| exact Hfire | exact Hp].
      apply (find_unique_key (fun r => level (store w r))); assumption. }
    apply or_else_chosen.
    { unfold bind, sectors_where, sector, gets, modify.
      destruct (List.filter _ _) as [|first others] eqn:Hf; [right; reflexivity |].
      destruct (Qle_bool 40 (materials (state w))) eqn:Hm; [| right; reflexivity].
      left. eexists _, _. split; [reflexivity |].
      apply chosen; [apply same_but_cursor_aim | right].
      destruct (aimed_repair _ _ _ _ Hf) as (r & Hfind).
      apply (carried_out_repair _ r); cbn; assumption. }
    apply or_else_chosen.
    { destruct (Qltb (food (state w)) 20 && (30 <? population (state w))) eqn:Hc;
        [| right; reflexivity].
      left. eexists _, _. split; [reflexivity |].
      apply chosen; [apply same_but_cursor_refl | right].
      apply andb_prop in Hc. apply carried_out_rations, Hc. }
    apply or_else_chosen.
    { destruct (Qltb (morale (state w)) 25 && Qle_bool 40 (food (state w))
                && Qle_bool 20 (power (state w))) eqn:Hc; [| right; reflexivity].
      left. eexists _, _. split; [reflexivity |].
      apply chosen; [apply same_but_cursor_refl | right].
      apply andb_prop in Hc. destruct Hc as [Hc Hp]. apply andb_prop in Hc.
      apply carried_out_boost; [apply Hc | exact Hp]. }
    apply or_else_chosen.
    { destruct (Qle_bool 120 (materials (state w))
                && (len (sectors (state w)) <? max_height (state w))) eqn:Hc;
        [| right; reflexivity].
      apply andb_prop in Hc. destruct Hc as [Hm Hroom].
      assert (Hmat : (80 <= materials (state w))%Q).
      { apply Qle_bool_iff in Hm. eapply Qle_trans; [| exact Hm]. discriminate. }
      left.
      destruct (Qltb (food (state w)) 100);
        [| destruct (Qltb (power (state w)) 100);
           [| destruct (Qltb (materials (state w)) 150)]];
        (eexists _, _; split; [reflexivity |];
         apply chosen; [apply same_but_cursor_refl | right];
         apply carried_out_build; [reflexivity | reflexivity | reflexivity
                                  | exact Hroom | exact Hmat]). }
    apply or_else_chosen.
    { unfold bind, sectors_where, sector, gets, modify.
      destruct (List.filter _ _) as [|first others] eqn:Hf; [right; reflexivity |].
      destruct (Qle_bool 60 (materials (state w))) eqn:Hm; [| right; reflexivity].
      left. eexists _, _. split; [reflexivity |].
      apply chosen; [apply same_but_cursor_aim | right].
      destruct (aimed_repair _ _ _ _ Hf) as (r & Hfind).
      apply (carried_out_repair _ r); cbn; [exact Hfind |].
      apply (Qle_bool_trans_from 40 60); [discriminate | exact Hm]. }
    apply or_else_chosen.
    { destruct (Qltb (morale (state w)) 50 && Qle_bool 60 (food (state w))
                && Qle_bool 30 (power (state w))) eqn:Hc; [| right; reflexivity].
      left. eexists _, _. split; [reflexivity |].
      apply chosen; [apply same_but_cursor_refl | right].
      apply andb_prop in Hc. destruct Hc as [Hc Hp]. apply andb_prop in Hc.
      destruct Hc as [_ Hf].
      apply carried_out_boost.
      - apply (Qle_bool_trans_from 40 60); [discriminate | exact Hf].
      - apply (Qle_bool_trans_from 20 30); [discriminate | exact Hp]. }
    apply chosen; [apply same_but_cursor_refl | left; reflexivity].
Qed.

Lemma autoplayer_never_refused_witness :
  reachable fresh_world /\
  current_dilemma (state fresh_world) = None /\
  well_chosen fresh_world (choose_action fresh_world).
Proof.
  assert (H : reachable fresh_world) by apply reach_init.
  assert (Hd : current_dilemma (state fresh_world) = None) by (vm_compute; reflexivity).
  exact (conj H (conj Hd (proj2 (autoplayer_never_refused fresh_world H) Hd))).
Defined.

Ltac wired_side :=
  solve [ intros; assumption
        | intros; unfold dilemma_wired in *; cbn in *; assumption
        | let w := fresh in let H := fresh in let d := fresh in let E := fresh in
          intros w H d E; cbn in E; injection E as <-; cbn; eauto
        | let w := fresh in let H := fresh in let d := fresh in let E := fresh in
          intros w H d E; cbn in E; discriminate E
        | auto ].

Lemma _process_action_keeps_wired (action : string) :
  keeps dilemma_wired dilemma_wired (_process_action action).
Proof. unfold _process_action. keeps_auto wired_side. Qed.

Lemma advance_turn_keeps_wired (action : string) :
  keeps dilemma_wired dilemma_wired (advance_turn action).
Proof.
  pose proof (_process_action_keeps_wired action) as Hact.
  keeps_auto ltac:(first [ exact Hact | wired_side ]).
Qed.

Lemma Simulation__init__keeps_wired : keeps dilemma_wired dilemma_wired Simulation__init__.
Proof. unfold Simulation__init__. keeps_auto wired_side. Qed.

Lemma reachable_wired (w : Simulation) : reachable w -> dilemma_wired w.
Proof.
  induction 1 as [g | w action _ IH | w c _ IH | w d pick _ IH Hd Hpick | w _ IH].
  - unfold Simulation_init. apply wp_snd. apply Simulation__init__keeps_wired.
    intros d Hd. discriminate Hd.
  - apply wp_after, advance_turn_keeps_wired, IH.
  - exact IH.
  - apply wp_after. revert IH. apply keeps_bind; [keeps_auto wired_side | intros _].
    keeps_auto wired_side.
  - exact IH.
Qed.

(** X23.  The scripted player never reinforces on credit.  In a reachable
    simulation the first option of the outstanding dilemma is always the
    reinforcement of a sector and the second its evacuation; when
    [choose_action] answers "dilemma_a", running that option leaves
    [materials >= 0]. *)
Theorem autoplayer_reinforces_within_means (w : Simulation) (d : Dilemma)
    (reason : Reason) :
  reachable w ->
  current_dilemma (state w) = Some d ->
  choose_action w = (Ok ("dilemma_a"%string, reason), w) ->
  (exists target,
     consequence_a d = save_sector target /\ consequence_b d = abandon_sector target) /\
  (0 <= materials (state (after (call (consequence_a d)) w)))%Q.
Proof.
  intros Hw Hd Hchoice. destruct (reachable_wired w Hw d Hd) as (target & Ha & Hb).
  split; [eauto |]. rewrite Ha.
  unfold choose_action, bind, get, gets in Hchoice. cbn in Hchoice. rewrite Hd in Hchoice.
  destruct (Qle_bool 50 (materials (state w))) eqn:Hm; [| discriminate Hchoice].
  apply Qle_bool_iff in Hm.
  unfold after, call, bind, sector, _add_event, get, gets, update, modify. cbn.
  unfold Qminus. rewrite <- (Qplus_opp_r 50). apply Qplus_le_compat; [exact Hm |].
  apply Qle_refl.
Qed.

Lemma choose_action_reinforce (w : Simulation) (d : Dilemma) :
  current_dilemma (state w) = Some d ->
  Qle_bool 50 (materials (state w)) = true ->
  choose_action w = (Ok ("dilemma_a"%string, SaveSector), w).
Proof.
  intros Hd Hm. unfold choose_action, bind, get, gets. cbn. rewrite Hd, Hm. reflexivity.
Qed.

Lemma autoplayer_reinforces_within_means_witness :
  reachable rioted /\
  current_dilemma (state rioted) = Some level8_dilemma /\
  choose_action rioted = (Ok ("dilemma_a"%string, SaveSector), rioted) /\
  (0 <= materials (state (after (call (consequence_a level8_dilemma)) rioted)))%Q.
Proof.
  assert (H : reachable rioted) by (apply reachable_play, reach_init).
  assert (Hd : current_dilemma (state rioted) = Some level8_dilemma)
    by (vm_compute; reflexivity).
  assert (Hm : Qle_bool 50 (materials (state rioted)) = true) by (vm_compute; reflexivity).
  pose proof (choose_action_reinforce rioted level8_dilemma Hd Hm) as Hc.
  exact (conj H (conj Hd (conj Hc
           (proj2 (autoplayer_reinforces_within_means rioted level8_dilemma SaveSector
                     H Hd Hc))))).
Defined.

(** *** A new simulation *)

Lemma wp_for_each_steps {A} (body : A -> M unit) (I : list A -> Simulation -> Prop)
    (l : list A) (w : Simulation) :
  (forall x rest w', I (x :: rest) w' -> wp (body x) (fun _ => I rest) nothing w') ->
  I l w -> wp (for_each l body) (fun _ => I []) nothing w.
Proof.
  intros Hbody. revert w. induction l as [|x l IH]; intros w Hw; [exact Hw |].
  simpl. apply wp_bind. eapply wp_mono; [apply Hbody, Hw | | intros w' Hf; exact Hf].
  intros a w' Hw'. apply IH, Hw'.
Qed.

Lemma wp_choice_cons {A} (x : A) (l : list A) Q E w :
  (forall y, In y (x :: l) -> Q y (with_rng (mkRng (tape (rng w)) (S (rpos (rng w)))) w)) ->
  wp (choice (x :: l)) Q E w.
Proof.
  intros HQ.
  pose (i := Z.to_nat (tape (rng w) (rpos (rng w)) mod Z.of_nat (length (x :: l)))).
  assert (Hc : choice (x :: l) w
               = (Ok (nth i (x :: l) x),
                  with_rng (mkRng (tape (rng w)) (S (rpos (rng w)))) w))
    by reflexivity.
  unfold wp. rewrite Hc. apply HQ.
  destruct (nth_in_or_default i (x :: l) x) as [Hi|Hi];
    [exact Hi | rewrite Hi; left; reflexivity].
Qed.

Lemma _initialize_tower_rises (g : Rng) :
  wp _initialize_tower (fun _ => tower_rising []) nothing (unborn g).
Proof.
  unfold _initialize_tower. apply (wp_for_each_steps _ tower_rising).
  - intros c rest w ((done & Hcfg & Hdesc) & Hfresh & Hcit & Hev & Hy & Hm).
    apply wp_bind.
    match goal with
    | |- wp ?body ?Q ?E w =>
        change (Q (8 + tape (rng w) (rpos (rng w)) mod (15 - 8 + 1))
                  (with_rng (mkRng (tape (rng w)) (S (rpos (rng w)))) w))
    end.
    cbv beta. apply wp_bind.
    match goal with
    | |- wp (alloc ?x) ?Q ?E ?w1 => change (Q (next_ref w1) (with_new x w1))
    end.
    cbv beta. apply wp_modify.
    unfold tower_rising, described. cbn [state store next_ref with_state with_new with_rng
      set_sectors sectors citizens events year month].
    split; [| split; [| auto]].
    + exists (done ++ [c]). rewrite <- List.app_assoc. split; [exact Hcfg |].
      rewrite List.map_app. f_equal.
      * rewrite <- Hdesc. unfold described. apply List.map_ext_in. intros r Hr.
        rewrite fn_lookup_insert_ne; [reflexivity |]. apply Hfresh in Hr. lia.
      * cbn [List.map]. rewrite fn_lookup_insert. destruct c. reflexivity.
    + intros r Hr. apply List.in_app_iff in Hr. destruct Hr as [Hr | [<- | []]]; [| lia].
      apply Hfresh in Hr. lia.
  - unfold tower_rising. split; [exists []; split; reflexivity |].
    split; [intros r [] | repeat split].
Qed.

Lemma described_levels (w : Simulation) :
  List.map (fun r => level (store w r)) (sectors (state w))
  = List.map fst (described w).
Proof. unfold described. rewrite List.map_map. reflexivity. Qed.

Lemma _initialize_citizens_arrive (w : Simulation) :
  citizens_arriving (firstn 5 citizen_names) w ->
  wp _initialize_citizens (fun _ => citizens_arriving []) nothing w.
Proof.
  unfold _initialize_citizens. apply (wp_for_each_steps _ citizens_arriving).
  clear w. intros name rest w ((done & Hnames & Hdone) & Hall & Hdesc & Hev & Hy & Hm).
  apply wp_bind. unfold citizen_roles at 1. apply wp_choice_cons. intros role Hrole.
  apply wp_bind, wp_gets. rewrite described_levels.
  match goal with
  | |- context [described ?w'] => change (described w') with (described w)
  end.
  rewrite Hdesc.
  change (List.map fst tower_configs) with [1; 2; 3; 4; 5; 6; 7; 8].
  apply wp_bind, wp_choice_cons. intros location Hloc. apply wp_modify.
  unfold citizens_arriving, described.
  cbn [state store with_state with_rng set_citizens sectors citizens events year month].
  split; [| split; [| split; [exact Hdesc | auto]]].
  - exists (done ++ [name]). rewrite <- List.app_assoc. split; [exact Hnames |].
    rewrite List.map_app, Hdone. reflexivity.
  - intros c Hc. apply List.in_app_iff in Hc. destruct Hc as [Hc | [<- | []]]; [auto |].
    unfold settled. cbn [cit_role cit_location cit_alive].
    split; [exact Hrole | split; [| reflexivity]].
    cbn [In] in Hloc. lia.
Qed.

Lemma Simulation__init___keeps_newborn : keeps newborn newborn Simulation__init__.
Proof. unfold newborn, Simulation__init__. keeps_auto frame_side. Qed.

Ltac pristine_side :=
  solve [ intros; cbn in *; auto
        | let w := fresh "w" in let Hw := fresh "Hw" in let r := fresh "r" in
          let Hr := fresh "Hr" in
          intros w Hw r Hr; cbn in Hr |- *;
          destruct (decide (r = next_ref w)) as [-> | Hne];
          [ rewrite fn_lookup_insert; cbn; repeat split; first [reflexivity | lia]
          | rewrite fn_lookup_insert_ne by congruence; apply Hw; lia ] ].

Lemma Simulation__init___keeps_pristine : keeps pristine pristine Simulation__init__.
Proof. unfold pristine, Simulation__init__. keeps_auto pristine_side. Qed.

Lemma Simulation__init___runs (g : Rng) :
  wp Simulation__init__
    (fun _ w =>
       described w = tower_configs /\
       List.map cit_name (citizens (state w)) = firstn 5 citizen_names /\
       (forall c, In c (citizens (state w)) -> settled c) /\
       events (state w) = [mkEvent 1 1 MsgAwakens cyan; mkEvent 1 1 MsgUnstable yellow])
    nothing (unborn g).
Proof.
  unfold Simulation__init__, GameState_post_init.
  apply wp_bind. apply wp_bind. unfold get at 1. apply wp_gets.
  change (when (match sectors (state (unborn g)) with [] => true | _ => false end)
            _initialize_tower)
    with _initialize_tower.
  apply wp_bind.
  eapply wp_mono; [apply _initialize_tower_rises | | intros w' Hf; exact Hf].
  intros u w1 ((done & Hcfg & Hdesc) & _ & Hcit & Hev & Hy & Hm). cbv beta.
  rewrite List.app_nil_r in Hcfg. subst done.
  unfold get at 1. apply wp_bind, wp_gets. rewrite Hcit.
  change (when true _initialize_citizens) with _initialize_citizens.
  eapply wp_mono; [apply _initialize_citizens_arrive | | intros w' Hf; exact Hf].
  - unfold citizens_arriving. rewrite Hcit.
    split; [exists []; split; reflexivity |].
    split; [intros c [] | auto].
  - intros u2 w2 ((done & Hnames & Hdone) & Hall & Hdesc2 & Hev2 & Hy2 & Hm2). cbv beta.
    rewrite List.app_nil_r in Hnames. subst done.
    apply wp_bind. unfold _add_event at 1, get. apply wp_bind, wp_gets, wp_modify.
    unfold _add_event, get. apply wp_bind, wp_gets, wp_modify.
    cbn [state store with_state set_events sectors citizens events year month].
    unfold described in *.
    cbn [state store with_state set_events sectors citizens events year month].
    rewrite Hev2, Hy2, Hm2. split; [exact Hdesc2 | split; [exact Hdone | split; [exact Hall | reflexivity]]].
Qed.

Lemma wp_returns {A} (m : M A) (Q : A -> Simulation -> Prop) (w : Simulation) :
  wp m Q nothing w -> exists a w', m w = (Ok a, w') /\ Q a w'.
Proof.
  unfold wp. destruct (m w) as [[a|e] w']; [| intros []].
  intros HQ. exists a, w'. split; [reflexivity | exact HQ].
Qed.

Lemma Simulation_init_facts (g : Rng) (w : Simulation) :
  snd (Simulation_init g) = w ->
  newborn w /\ pristine w /\ tower_ok w.
Proof.
  intros <-. split; [| split].
  - unfold Simulation_init.
    apply wp_snd, wp_keeps; [apply Simulation__init___keeps_newborn |].
    unfold newborn, unborn, GameState_defaults. cbn [state year month food power materials
      population morale tension turns_since_crisis alive victory_message cursor max_height
      current_dilemma building_mode]. repeat split; reflexivity.
  - unfold Simulation_init.
    apply wp_snd, wp_keeps; [apply Simulation__init___keeps_pristine |].
    intros r Hr. unfold unborn in Hr. cbn [next_ref] in Hr. lia.
  - apply Simulation_init_tower.
Qed.

(** X24. [Simulation()] never raises, whatever the random draws.  The new
    game has the dataclass defaults in its scalar fields, the eight sectors
    of levels 1 to 8 with the types POWER, INDUSTRIAL, RESIDENTIAL, FARMS,
    RESIDENTIAL, FARMS, POWER, RESIDENTIAL, each at health 100 with 8 to 15
    workers and not on fire, the first five names as citizens, each with one
    of the six roles and a location among the levels 1 to 8, and exactly the
    two opening events, stamped year 1 month 1. *)
Theorem Simulation_new (g : Rng) :
  exists w, Simulation_init g = (Ok tt, w) /\
    newborn w /\
    described w = tower_configs /\
    (forall r, In r (sectors (state w)) ->
       health (store w r) = 100%Q /\ 8 <= workers (store w r) <= 15 /\
       on_fire (store w r) = false) /\
    List.map cit_name (citizens (state w)) = firstn 5 citizen_names /\
    (forall c, In c (citizens (state w)) -> settled c) /\
    events (state w) = [mkEvent 1 1 MsgAwakens cyan; mkEvent 1 1 MsgUnstable yellow].
Proof.
  destruct (wp_returns _ _ _ (Simulation__init___runs g)) as ([] & w & Hr & Hd & Hn & Hs & He).
  destruct (Simulation_init_facts g w) as (Hnew & Hpr & Hfresh & _).
  { unfold Simulation_init. rewrite Hr. reflexivity. }
  exists w. split; [unfold Simulation_init; exact Hr |]. split; [exact Hnew |]. split; [exact Hd |].
  split; [| split; [exact Hn | split; [exact Hs | exact He]]].
  intros r Hr'. apply Hpr, Hfresh, Hr'.
Qed.

(** *** Health in the application *)

Lemma fitting_with_state (f : GameState -> GameState) (w : Simulation) :
  (forall s, current_dilemma (f s) = current_dilemma s) ->
  fitting w -> fitting (with_state f w).
Proof.
  intros Hf (Hc & Hr). split; [exact Hc |].
  intros d t Hd. cbn in Hd. rewrite Hf in Hd. exact (Hr d t Hd).
Qed.

Lemma fitting_with_rng (g : Rng) (w : Simulation) : fitting w -> fitting (with_rng g w).
Proof. intros H. exact H. Qed.

Lemma fitting_update (r : ref) (f : Sector -> Sector) (w : Simulation) :
  (forall x, (health (f x) <= health x)%Q \/ (health (f x) <= 0)%Q) ->
  fitting w -> fitting (with_sector r f w).
Proof.
  intros Hf (Hc & Hr).
  assert (Hst : forall r', (health (alter f r (store w) r') <= health (store w r'))%Q \/
                           (health (alter f r (store w) r') <= 0)%Q).
  { intros r'. destruct (decide (r = r')) as [<- | Hne].
    - rewrite fn_lookup_alter. apply Hf.
    - rewrite fn_lookup_alter_ne by exact Hne. left. apply Qle_refl. }
  split.
  - intros r'. cbn. specialize (Hc r'). destruct (Hst r'); lra.
  - intros d t Hd Ht. destruct (Hr d t Hd Ht) as (Hlt & Hh). cbn. split; [exact Hlt |].
    destruct (Hst t); lra.
Qed.

Lemma fitting_alloc (x : Sector) (w : Simulation) :
  (health x <= 100)%Q -> fitting w -> fitting (with_new x w).
Proof.
  intros Hx (Hc & Hr). split.
  - intros r. cbn. destruct (decide (next_ref w = r)) as [<- | Hne].
    + rewrite fn_lookup_insert. exact Hx.
    + rewrite fn_lookup_insert_ne by exact Hne. apply Hc.
  - intros d t Hd Ht. destruct (Hr d t Hd Ht) as (Hlt & Hh). cbn. split; [lia |].
    rewrite fn_lookup_insert_ne by lia. exact Hh.
Qed.

Lemma fitting_decided (f : GameState -> GameState) (w : Simulation) :
  (forall s, current_dilemma (f s) = None) -> capped w -> fitting (with_state f w).
Proof.
  intros Hf Hc. split; [exact Hc |]. intros d t Hd. cbn in Hd. rewrite Hf in Hd.
  discriminate Hd.
Qed.

Ltac lowers :=
  cbn;
  first [ left; apply Qle_refl
        | left; lra
        | right; lra
        | left; match goal with |- context [if ?b then _ else _] => destruct b end; lra
        | left;
          match goal with
          | |- context [inject_Z ?n] =>
              assert (0 <= inject_Z n)%Q by (unfold Qle; cbn; lia); lra
          end ].

Ltac fitting_side :=
  solve [ intros;
          lazymatch goal with
          | H : fitting ?w |- fitting _ =>
              first [ exact H
                    | apply fitting_with_state; [intros ?; reflexivity | exact H]
                    | apply fitting_update; [intros ?; lowers | exact H]
                    | apply fitting_alloc; [cbn; lra | exact H]
                    | apply fitting_decided; [intros ?; reflexivity | apply H] ]
          end ].

Lemma _process_action_keeps_fitting (action : string) :
  String.eqb action "repair" = false ->
  keeps fitting fitting (_process_action action).
Proof.
  intros Hrep. unfold _process_action. rewrite Hrep. keeps_auto fitting_side.
Qed.

Lemma _process_action_keeps_sound (action : string) :
  String.eqb action "repair" = false ->
  keeps sound sound (_process_action action).
Proof.
  intros Hrep.
  apply (keeps_conj fitting tower_ok fitting tower_ok);
    [apply _process_action_keeps_fitting, Hrep | apply _process_action_keeps_tower].
Qed.

Lemma _create_dilemma_keeps_sound : keeps sound sound _create_dilemma.
Proof.
  intros w ((Hc & Hr) & Ht). unfold _create_dilemma. apply wp_bind, wp_gets.
  destruct (List.filter _ (sectors (state w))) as [|r l] eqn:Hdam.
  { split; [split |]; assumption. }
  apply wp_bind, wp_choice_cons. intros target Htarget.
  rewrite <- Hdam in Htarget. apply List.filter_In in Htarget.
  destruct Htarget as (Hin & Hweak). apply andb_true_iff in Hweak.
  destruct Hweak as (_ & Hlt). apply Qltb_true in Hlt.
  apply wp_bind. unfold sector. apply wp_gets. apply wp_modify.
  split; [split |].
  - exact Hc.
  - intros d t Hd Hsave. cbn in Hd. injection Hd as <-. cbn in Hsave.
    destruct Hsave as [[= <-] | [=]]. cbn. split; [apply Ht, Hin | exact Hlt].
  - unfold tower_ok, levels in *. cbn. exact Ht.
Qed.

Ltac sound_side :=
  solve [ right; intros; assumption
        | intros;
          lazymatch goal with
          | H : sound ?w |- sound _ =>
              first [ exact H
                    | let HJ := fresh "HJ" in let HT := fresh "HT" in
                      destruct H as (HJ & HT); split;
                      [ first [ exact HJ
                              | apply fitting_with_state; [intros ?; reflexivity | exact HJ]
                              | apply fitting_update; [intros ?; lowers | exact HJ]
                              | apply fitting_decided; [intros ?; reflexivity | apply HJ] ]
                      | first [ exact HT
                              | apply tower_ok_update; [intros ?; reflexivity | exact HT]
                              | unfold tower_ok, levels in *; cbn in *; exact HT ] ] ]
          end ].

Lemma advance_turn_tail_keeps_sound :
  keeps sound sound
    (production_phase ;; consumption_phase ;; crisis_phase ;; _propagate_disasters ;;
     sector_decay ;; morale_population ;; tension_pacing ;; win_lose).
Proof.
  pose proof _create_dilemma_keeps_sound as Hcreate.
  unfold production_phase, consumption_phase, crisis_phase, _propagate_disasters,
    sector_decay, morale_population, tension_pacing, win_lose, _trigger_crisis,
    _trigger_minor_event, _crisis_earthquake, _crisis_fire, _crisis_disease,
    _crisis_structural_failure, _crisis_riot, minor_events, get, sector, get_sector.
  repeat keeps_step sound_side.
  exact Hcreate.
Qed.

Lemma wp_update (r : ref) (f : Sector -> Sector) Q E w :
  Q tt (with_sector r f w) -> wp (update r f) Q E w.
Proof. exact id. Qed.

Lemma advance_turn_keeps_sound (action : string) :
  String.eqb action "repair" = false ->
  keeps sound sound (advance_turn action).
Proof.
  intros Hrep. unfold advance_turn.
  apply keeps_bind; [unfold advance_time, get; repeat keeps_step sound_side | intros _].
  apply keeps_bind; [apply keeps_when, _process_action_keeps_sound, Hrep | intros _].
  apply advance_turn_tail_keeps_sound.
Qed.

Lemma repair_keeps_sound (w : Simulation) :
  sound w -> undecided_free w ->
  wp (_process_action "repair") (fun _ => sound) sound w.
Proof.
  intros ((Hc & Hr) & Ht) Hfree.
  unfold _process_action. rewrite String.eqb_refl.
  unfold get, get_sector. apply wp_bind, wp_gets, wp_bind, wp_gets.
  assert (Hlog : forall m c, wp (_add_event m c) (fun _ => sound) sound w).
  { intros m c. unfold _add_event, get. apply wp_bind, wp_gets, wp_modify.
    split; [apply fitting_with_state; [intros ?; reflexivity | split; assumption] |].
    unfold tower_ok, levels in *. cbn. exact Ht. }
  destruct (List.find _ _) as [r|]; [| apply Hlog].
  destruct (Qle_bool 40 (materials (state w))); [| apply Hlog].
  apply wp_bind, wp_modify, wp_bind, wp_update, wp_bind, wp_update.
  unfold _add_event, get. apply wp_bind, wp_gets, wp_modify.
  split; [split |].
  - intros r'. cbn. destruct (decide (r = r')) as [<- | Hne].
    + rewrite fn_lookup_alter. cbn. apply Q.le_min_l.
    + rewrite !fn_lookup_alter_ne by exact Hne. apply Hc.
  - intros d t Hd. cbn in Hd. unfold undecided_free in Hfree. rewrite Hfree in Hd.
    discriminate Hd.
  - unfold tower_ok, levels in *. cbn.
    destruct Ht as (Href & Hlv & Hlen). split; [exact Href | split; [| exact Hlen]].
    rewrite <- Hlv. apply List.map_ext. intros r'.
    rewrite !level_alter by (intros ?; reflexivity). reflexivity.
Qed.

Lemma undecided_free_kept {A} (m : M A) :
  keeps undecided_free undecided_free m ->
  keeps sound sound m ->
  keeps (fun w => sound w /\ undecided_free w) sound m.
Proof.
  intros Hfree Hsound w Hw.
  eapply wp_mono; [apply (keeps_conj sound undecided_free sound undecided_free m Hsound Hfree w Hw)
                  | intros a w' H'; exact H' | intros w' H'; apply H'].
Qed.

Lemma advance_turn_repair_sound (w : Simulation) :
  sound w -> undecided_free w ->
  wp (advance_turn "repair") (fun _ => sound) sound w.
Proof.
  intros Hw Hfree. unfold advance_turn. apply wp_bind.
  eapply wp_mono;
    [apply (keeps_conj sound undecided_free sound undecided_free advance_time)
    | | intros w' H'; apply H'].
  - unfold advance_time, get. repeat keeps_step sound_side.
  - unfold undecided_free, advance_time, get. repeat keeps_step frame_side.
  - split; assumption.
  - intros u1 w1 (Hw1 & Hfree1). cbv beta. apply wp_bind.
    change (when (negb (String.eqb "repair" "wait")) (_process_action "repair"))
      with (_process_action "repair").
    eapply wp_mono; [apply repair_keeps_sound; assumption | | intros w' H'; exact H'].
    intros u2 w2 Hw2. apply advance_turn_tail_keeps_sound, Hw2.
Qed.

Lemma call_keeps_sound (w : Simulation) (d : Dilemma) (c : Consequence) :
  sound w -> current_dilemma (state w) = Some d ->
  c = consequence_a d \/ c = consequence_b d ->
  wp (call c ;; modify (set_current_dilemma (fun _ => None))) (fun _ => sound) sound w.
Proof.
  intros Hw Hd Hc. destruct c as [t | t].
  - destruct Hw as ((Hcap & Hfit) & Ht).
    destruct (Hfit d t Hd) as (_ & Hlow).
    { destruct Hc as [-> | ->]; [left | right]; reflexivity. }
    unfold call, sector, _add_event, get.
    apply wp_bind, wp_bind, wp_update, wp_bind, wp_modify, wp_bind, wp_gets, wp_bind,
      wp_gets, wp_modify, wp_modify.
    split; [apply fitting_decided; [intros ?; reflexivity |] |].
    + intros r. cbn. destruct (decide (t = r)) as [<- | Hne].
      * rewrite fn_lookup_alter. cbn. lra.
      * rewrite fn_lookup_alter_ne by exact Hne. apply Hcap.
    + unfold tower_ok, levels in *. cbn.
      destruct Ht as (Href & Hlv & Hlen). split; [exact Href | split; [| exact Hlen]].
      rewrite <- Hlv. apply List.map_ext. intros r'.
      rewrite level_alter by (intros ?; reflexivity). reflexivity.
  - clear Hd Hc. revert w Hw.
    change (keeps sound sound
              (call (abandon_sector t) ;; modify (set_current_dilemma (fun _ => None)))).
    unfold call, sector, get. repeat keeps_step sound_side.
Qed.

Lemma wp_bind_assoc {A B C} (m : M A) (k1 : A -> M B) (k2 : B -> M C) Q E w :
  wp (bind (bind m k1) k2) Q E w -> wp (bind m (fun a => bind (k1 a) k2)) Q E w.
Proof. unfold wp, bind. destruct (m w) as [[a|e] w']; auto. Qed.

Lemma resolve_keeps_sound (pick : Dilemma -> Consequence) :
  pick = consequence_a \/ pick = consequence_b ->
  keeps sound sound (resolve pick).
Proof.
  intros Hpick w Hw. unfold resolve, get. apply wp_bind, wp_gets.
  destruct (current_dilemma (state w)) as [d|] eqn:Hd; [| exact Hw].
  apply wp_bind_assoc, wp_bind.
  eapply wp_mono; [apply (call_keeps_sound w d); [exact Hw | exact Hd |]
                  | | intros w' H'; exact H'].
  - destruct Hpick as [-> | ->]; [left | right]; reflexivity.
  - intros u w1 Hw1. apply advance_turn_keeps_sound; [reflexivity | exact Hw1].
Qed.

Lemma Simulation_init_sound (g : Rng) (w : Simulation) :
  snd (Simulation_init g) = w -> sound w.
Proof.
  intros <-. split; [| apply Simulation_init_tower].
  unfold Simulation_init. apply wp_snd, wp_keeps.
  - unfold Simulation__init__. keeps_auto fitting_side.
  - split.
    + intros r. cbn. lra.
    + intros d t Hd. discriminate Hd.
Qed.

Lemma on_sim_sound (m : M unit) (k : SpireApp -> SpireApp) (app app' : SpireApp) :
  (forall a, sim (k a) = sim a) ->
  wp m (fun _ => sound) sound (sim app) ->
  on_sim m k app = (Ok tt, app') -> sound (sim app').
Proof.
  intros Hk Hm. unfold on_sim. unfold wp in Hm.
  destruct (m (sim app)) as [[[]|e] w]; [| intros [=]].
  intros [= <-]. rewrite Hk. exact Hm.
Qed.

Lemma turn_handler_sound (action : string) (app app' : SpireApp) :
  sound (sim app) ->
  (if game_over app || has_dilemma app then (Ok tt, app)
   else on_sim (advance_turn action) check_game_over app) = (Ok tt, app') ->
  sound (sim app').
Proof.
  intros Hw.
  destruct (game_over app || has_dilemma app) eqn:Hguard; [intros [= <-]; exact Hw |].
  apply on_sim_sound; [apply sim_check_game_over |].
  destruct (String.eqb action "repair") eqn:Hrep.
  - apply String.eqb_eq in Hrep. subst action.
    apply advance_turn_repair_sound; [exact Hw |].
    apply orb_false_iff in Hguard. destruct Hguard as (_ & Hdil).
    unfold has_dilemma in Hdil. unfold undecided_free.
    destruct (current_dilemma (state (sim app))); [discriminate Hdil | reflexivity].
  - apply advance_turn_keeps_sound; [exact Hrep | exact Hw].
Qed.

Lemma build_handler_sound (action : string) (app app' : SpireApp) :
  String.eqb action "repair" = false ->
  sound (sim app) -> build_handler action app = (Ok tt, app') -> sound (sim app').
Proof.
  intros Hrep Hw. unfold build_handler.
  destruct (negb (building_mode (state (sim app)))); [intros [= <-]; exact Hw |].
  apply on_sim_sound; [apply sim_check_game_over |].
  revert Hw. generalize (sim app).
  change (keeps sound sound
            (modify (set_building_mode (fun _ => false)) ;; advance_turn action)).
  apply keeps_bind; [keeps_step sound_side | intros _].
  apply advance_turn_keeps_sound, Hrep.
Qed.

Lemma choice_handler_sound (pick : Dilemma -> Consequence) (app app' : SpireApp) :
  pick = consequence_a \/ pick = consequence_b ->
  sound (sim app) ->
  (if game_over app || negb (has_dilemma app) then (Ok tt, app)
   else on_sim (resolve pick) check_game_over app) = (Ok tt, app') ->
  sound (sim app').
Proof.
  intros Hpick Hw.
  destruct (game_over app || negb (has_dilemma app)); [intros [= <-]; exact Hw |].
  apply on_sim_sound; [apply sim_check_game_over |].
  apply resolve_keeps_sound; assumption.
Qed.

Lemma quiet_handler_sound (m : M unit) (b : bool) (app app' : SpireApp) :
  keeps sound sound m -> sound (sim app) ->
  (if b then (Ok tt, app) else on_sim m id app) = (Ok tt, app') ->
  sound (sim app').
Proof.
  intros Hm Hw. destruct b; [intros [= <-]; exact Hw |].
  apply on_sim_sound; [reflexivity | apply Hm, Hw].
Qed.

Lemma handlers_keep_sound (h : SpireApp -> Result unit * SpireApp)
    (app app' : SpireApp) :
  In h all_handlers -> sound (sim app) -> h app = (Ok tt, app') -> sound (sim app').
Proof.
  intros Hh Hw.
  unfold all_handlers, guarded_handlers, turn_handlers in Hh. simpl in Hh.
  repeat (destruct Hh as [<- | Hh]); [.. | destruct Hh].
  - apply turn_handler_sound, Hw.
  - apply turn_handler_sound, Hw.
  - unfold action_do_build.
    destruct (game_over app || has_dilemma app); [intros [= <-]; exact Hw |].
    cbv zeta.
    destruct (max_height (state (sim app)) <=? len (sectors (state (sim app))));
      [| destruct (Qltb (materials (state (sim app))) 80)];
      (apply on_sim_sound; [reflexivity |]); revert Hw; generalize (sim app);
      match goal with
      | |- forall w, sound w -> wp ?m _ _ w => change (keeps sound sound m)
      end;
      unfold _add_event, get; repeat keeps_step sound_side.
  - apply turn_handler_sound, Hw.
  - apply turn_handler_sound, Hw.
  - apply turn_handler_sound, Hw.
  - apply choice_handler_sound; [left; reflexivity | exact Hw].
  - apply choice_handler_sound; [right; reflexivity | exact Hw].
  - apply quiet_handler_sound; [keeps_step sound_side | exact Hw].
  - apply quiet_handler_sound; [keeps_step sound_side | exact Hw].
  - apply build_handler_sound; [reflexivity | exact Hw].
  - apply build_handler_sound; [reflexivity | exact Hw].
  - apply build_handler_sound; [reflexivity | exact Hw].
  - apply build_handler_sound; [reflexivity | exact Hw].
  - unfold action_cancel_build.
    destruct (building_mode (state (sim app))); [| intros [= <-]; exact Hw].
    apply on_sim_sound; [reflexivity |]. revert Hw. generalize (sim app).
    change (keeps sound sound (modify (set_building_mode (fun _ => false)))).
    keeps_step sound_side.
  - unfold action_restart.
    pose proof (Simulation_init_sound (rng (sim app))) as Hnew.
    destruct (Simulation_init (rng (sim app))) as [[[]|e] w]; [| intros [=]].
    intros [= <-]. apply Hnew. reflexivity.
Qed.

(** X25.  In the application no sector is ever healthier than new.  After
    [SpireApp()] and any sequence of key handlers, every sector of the tower
    has health at most 100, and the sector that the first option of an
    outstanding dilemma reinforces has health below 60: the repair key is
    refused while a dilemma is outstanding, every other turn only lowers
    health, and the reinforcement adds 40. *)
Theorem health_capped_in_app (app : SpireApp) :
  played app ->
  (forall r, In r (sectors (state (sim app))) ->
     (health (store (sim app) r) <= 100)%Q) /\
  (forall d t, current_dilemma (state (sim app)) = Some d ->
     consequence_a d = save_sector t ->
     (health (store (sim app) t) < 60)%Q).
Proof.
  intros Hplayed.
  assert (Hsound : sound (sim app)).
  { induction Hplayed as [g w Hinit | app app' h _ IH Hh Hrun].
    - apply (Simulation_init_sound g). rewrite Hinit. reflexivity.
    - exact (handlers_keep_sound h app app' Hh IH Hrun). }
  destruct Hsound as ((Hcap & Hfit) & _). split.
  - intros r _. apply Hcap.
  - intros d t Hd Ha. apply (Hfit d t Hd). left. exact Ha.
Qed.

Lemma health_capped_in_app_witness :
  played fresh_app /\
  (forall r, In r (sectors (state (sim fresh_app))) ->
     (health (store (sim fresh_app) r) <= 100)%Q).
Proof.
  assert (Hrun : Simulation_init steady = (Ok tt, fresh_world))
    by (vm_compute; reflexivity).
  assert (H : played fresh_app) by exact (played_new steady fresh_world Hrun).
  exact (conj H (proj1 (health_capped_in_app fresh_app H))).
Defined.
